(** * pixi_to_osv: package identity extraction, classification and manifests

    A shallow embedding of [scripts/pixi_to_osv.py].

    Conventions of the embedding.
    - A Python [str] is a [string]; its characters are read as the code
      points 0..255, and the character classes below ([\d], [\w],
      [str.lower], ...) are CPython's on that range.
    - [Path] is [PurePosixPath].
    - The library calls of [extract_package_info] ([urllib.parse.urlparse],
      [pathlib.Path.name], [re.sub], [re.match]) are embedded from CPython
      3.11's sources, including the [ValueError] that [urlparse] raises
      (from the bracket checks and from [_checknetloc]).
    - A function that can raise returns a [result]; a function that prints
      threads the standard output. *)

From Stdlib Require Import Ascii String NArith.
From stdpp Require Import base option list strings gmap.

(** ** Characters *)

Definition code (c : ascii) : N := N_of_ascii c.

Definition between (lo hi : N) (c : ascii) : bool :=
  ((lo <=? code c) && (code c <=? hi))%N.

Definition is_ascii_upper : ascii → bool := between 65 90.
Definition is_ascii_lower : ascii → bool := between 97 122.
Definition is_ascii_alpha (c : ascii) : bool := is_ascii_upper c || is_ascii_lower c.

(** [\d] of a [str] pattern: the decimal digits (category Nd). *)
Definition is_digit : ascii → bool := between 48 57.

(** [\w] of a [str] pattern: [str.isalnum] or the underscore.  Above 127
    the alphanumeric code points are ª ² ³ µ ¹ º ¼ ½ ¾ and the letters
    À..ÿ without × and ÷. *)
Definition is_word (c : ascii) : bool :=
  is_digit c || is_ascii_alpha c || (code c =? 95)%N
  || (code c =? 170)%N || between 178 179 c || (code c =? 181)%N
  || between 185 186 c || between 188 190 c
  || between 192 214 c || between 216 246 c || between 248 255 c.

Definition is_hex_digit (c : ascii) : bool :=
  is_digit c || between 65 70 c || between 97 102 c.

(** One character of [str.lower]. *)
Definition lower_char (c : ascii) : ascii :=
  if is_ascii_upper c || between 192 214 c || between 216 222 c
  then ascii_of_N (code c + 32) else c.

Definition newline : ascii := "010"%char.

(** ** Python [str] methods *)

Fixpoint str_all (p : ascii → bool) (s : string) : bool :=
  match s with
  | "" => true
  | String c s' => p c && str_all p s'
  end.

Fixpoint str_filter (p : ascii → bool) (s : string) : string :=
  match s with
  | "" => ""
  | String c s' => if p c then String c (str_filter p s') else str_filter p s'
  end.

Fixpoint str_map (f : ascii → ascii) (s : string) : string :=
  match s with
  | "" => ""
  | String c s' => String (f c) (str_map f s')
  end.

(** [s.lower()] *)
Definition lower : string → string := str_map lower_char.

(** [s[:n]] and [s[n:]] *)
Fixpoint str_take (n : nat) (s : string) : string :=
  match n, s with
  | S n', String c s' => String c (str_take n' s')
  | _, _ => ""
  end.

Fixpoint str_drop (n : nat) (s : string) : string :=
  match n, s with
  | S n', String _ s' => str_drop n' s'
  | _, _ => s
  end.

(** [s.startswith(p)] *)
Fixpoint startswith (p s : string) : bool :=
  match p, s with
  | "", _ => true
  | String a p', String b s' => bool_decide (a = b) && startswith p' s'
  | _, _ => false
  end.

(** [s.endswith(p)]: some suffix of [s] is [p]. *)
Fixpoint endswith (p s : string) : bool :=
  bool_decide (s = p) ||
  match s with
  | "" => false
  | String _ s' => endswith p s'
  end.

(** [p in s] *)
Fixpoint contains (p s : string) : bool :=
  startswith p s ||
  match s with
  | "" => false
  | String _ s' => contains p s'
  end.

Definition has_char (c : ascii) (s : string) : bool :=
  negb (str_all (λ a, negb (bool_decide (a = c))) s).

(** The longest prefix whose characters satisfy [p], and what follows it. *)
Fixpoint str_span (p : ascii → bool) (s : string) : string * string :=
  match s with
  | "" => ("", "")
  | String c s' =>
      if p c then let '(a, b) := str_span p s' in (String c a, b)
      else ("", s)
  end.

(** [s.partition(c)] for a one-character separator: what is before the
    first [c] and what is after it, when there is one. *)
Fixpoint str_partition (c : ascii) (s : string) : option (string * string) :=
  match s with
  | "" => None
  | String a s' =>
      if bool_decide (a = c) then Some ("", s')
      else '(x, y) ← str_partition c s'; Some (String a x, y)
  end.

(** [s.split(c)] for a one-character separator. *)
Fixpoint str_split (c : ascii) (s : string) : list string :=
  match s with
  | "" => [""]
  | String a s' =>
      if bool_decide (a = c) then "" :: str_split c s'
      else match str_split c s' with
           | p :: ps => String a p :: ps
           | [] => [String a ""]
           end
  end.

(** [sep.join(l)] *)
Fixpoint str_join (sep : string) (l : list string) : string :=
  match l with
  | [] => ""
  | [x] => x
  | x :: l' => x +:+ sep +:+ str_join sep l'
  end.

(** [s.rpartition(c)[2]]: what follows the last [c]. *)
Definition after_last (c : ascii) (s : string) : string :=
  List.last (str_split c s) "".

(** [s.split(c, 1)[0]]: what precedes the first [c]. *)
Definition before_first (c : ascii) (s : string) : string :=
  match str_partition c s with
  | Some (x, _) => x
  | None => s
  end.

(** ** Exceptions *)

Inductive exn := ValueError.

Inductive result (A : Type) :=
| Ok (a : A)
| Raise (e : exn).
Arguments Ok {A} a.
Arguments Raise {A} e.

Global Instance result_ret : MRet result := λ A a, Ok a.
Global Instance result_bind : MBind result := λ A B f r,
  match r with
  | Ok a => f a
  | Raise e => Raise e
  end.
Global Instance result_fmap : FMap result := λ A B f r,
  match r with
  | Ok a => Ok (f a)
  | Raise e => Raise e
  end.

(** ** Regular expressions: the fragment of [re] that the program uses

    A backtracking matcher in continuation-passing style, with the
    priorities of CPython's engine: a greedy repetition tries one more
    iteration before the rest of the pattern, a lazy one tries the rest of
    the pattern first, an alternation tries its left branch first. *)

Inductive regex :=
| Eps
| Chr (p : ascii → bool)          (* one character of a class *)
| Cat (r1 r2 : regex)
| Alt (r1 r2 : regex)             (* r1|r2 *)
| Opt (r : regex)                 (* r? *)
| Star (r : regex)                (* r* *)
| Plus (r : regex)                (* r+ *)
| LazyPlus (r : regex)            (* r+? *)
| Group (n : nat) (r : regex)     (* the n-th capturing group *)
| Bol                             (* ^ *)
| Eol.                            (* $ *)

Infix "·" := Cat (at level 41, right associativity).

(** [c] as a pattern, [.] (anything but a newline), [\d], [\w], and a
    literal word. *)
Definition Lit (c : ascii) : regex := Chr (λ a, bool_decide (a = c)).
Definition Dot : regex := Chr (λ a, negb (bool_decide (a = newline))).
Definition Digit : regex := Chr is_digit.
Definition Word : regex := Chr is_word.

Fixpoint Lits (s : string) : regex :=
  match s with
  | "" => Eps
  | String c "" => Lit c
  | String c s' => Lit c · Lits s'
  end.

Abbreviation captures := (gmap nat string).

Section Matcher.
Context {A : Type}.
(** The length of the whole subject, by which [^] knows the start. *)
Variable subject_len : nat.

Abbreviation cont := (string → captures → option A).

(** Zero or more iterations of [body], as many as possible.  An iteration
    that consumes nothing is not repeated. *)
Fixpoint greedy (body : cont → cont) (k : cont) (fuel : nat) (s : string) (c : captures) : option A :=
  match fuel with
  | 0 => k s c
  | S fuel' =>
      match body (λ s' c', if decide (String.length s' < String.length s)
                           then greedy body k fuel' s' c' else None) s c with
      | Some x => Some x
      | None => k s c
      end
  end.

(** Zero or more iterations of [body], as few as possible. *)
Fixpoint lazy_loop (body : cont → cont) (k : cont) (fuel : nat) (s : string) (c : captures) : option A :=
  match k s c with
  | Some x => Some x
  | None =>
      match fuel with
      | 0 => None
      | S fuel' =>
          body (λ s' c', if decide (String.length s' < String.length s)
                         then lazy_loop body k fuel' s' c' else None) s c
      end
  end.

Fixpoint exec (r : regex) (k : cont) (s : string) (c : captures) {struct r} : option A :=
  match r with
  | Eps => k s c
  | Chr p =>
      match s with
      | String a s' => if p a then k s' c else None
      | "" => None
      end
  | Cat r1 r2 => exec r1 (exec r2 k) s c
  | Alt r1 r2 =>
      match exec r1 k s c with
      | Some x => Some x
      | None => exec r2 k s c
      end
  | Opt r' =>
      match exec r' k s c with
      | Some x => Some x
      | None => k s c
      end
  | Star r' => greedy (exec r') k (String.length s) s c
  | Plus r' => exec r' (λ s' c', greedy (exec r') k (String.length s') s' c') s c
  | LazyPlus r' => exec r' (λ s' c', lazy_loop (exec r') k (String.length s') s' c') s c
  | Group n r' =>
      exec r' (λ s' c', k s' (<[n := str_take (String.length s - String.length s') s]> c')) s c
  | Bol => if decide (String.length s = subject_len) then k s c else None
  | Eol => if decide (s = "" ∨ s = String newline "") then k s c else None
  end.
End Matcher.

(** [re.match(r, s)]: the captures of a match that starts at the start. *)
Definition re_match (r : regex) (s : string) : option captures :=
  exec (String.length s) r (λ _ c, Some c) s ∅.

(** [re.fullmatch(r, s)] is not [None] (equally [re.match] of [r\Z]). *)
Definition re_fullmatch (r : regex) (s : string) : bool :=
  bool_decide (is_Some (exec (String.length s) r
    (λ rest c, if decide (rest = "") then Some c else None) s ∅)).

(** [m.group(n)] *)
Definition group (n : nat) (c : captures) : string := default "" (c !! n).

(** [re.sub(r, '', s)]: the leftmost matches are cut out, one after the
    other.  [skip] counts the characters of the current match that are
    still to drop.  A match of no character changes nothing. *)
Fixpoint sub_scan (subject_len : nat) (r : regex) (skip : nat) (s : string) : string :=
  match skip, s with
  | _, "" => ""
  | S skip', String _ s' => sub_scan subject_len r skip' s'
  | 0, String a s' =>
      match exec subject_len r (λ rest _, Some (String.length s - String.length rest)) s ∅ with
      | Some (S n) => sub_scan subject_len r n s'
      | _ => String a (sub_scan subject_len r 0 s')
      end
  end.

Definition re_sub_empty (r : regex) (s : string) : string :=
  sub_scan (String.length s) r 0 s.

(** ** [ipaddress]: which bracketed hosts [urlsplit] accepts *)

(** [int(s)] of a string of decimal digits. *)
Fixpoint decimal_value (acc : N) (s : string) : N :=
  match s with
  | "" => acc
  | String c s' => decimal_value (acc * 10 + (code c - 48))%N s'
  end.

(** [IPv4Address._parse_octet] succeeds. *)
Definition octet_ok (o : string) : bool :=
  negb (bool_decide (o = "")) && str_all is_digit o
  && bool_decide (String.length o ≤ 3)%nat
  && (bool_decide (o = "0") || negb (startswith "0" o))
  && (decimal_value 0 o <=? 255)%N.

(** [IPv4Address(s)] succeeds. *)
Definition ipv4_ok (s : string) : bool :=
  negb (has_char "/" s) && negb (bool_decide (s = ""))
  && (let octets := str_split "." s in
      bool_decide (length octets = 4%nat) && forallb octet_ok octets).

(** [IPv6Address._parse_hextet] succeeds ([int('', 16)] raises). *)
Definition hextet_ok (h : string) : bool :=
  str_all is_hex_digit h && bool_decide (String.length h ≤ 4)%nat
  && negb (bool_decide (h = "")).

(** [IPv6Address._ip_int_from_string] succeeds. *)
Definition ipv6_int_ok (ip_str : string) : bool :=
  negb (bool_decide (ip_str = "")) &&
  let parts := str_split ":" ip_str in
  bool_decide (3 ≤ length parts)%nat &&
  let last_part := List.last parts "" in
  (* an IPv4-style suffix is replaced by its two hextets *)
  (negb (has_char "." last_part) || ipv4_ok last_part) &&
  let parts := if has_char "." last_part
               then removelast parts ++ ["0"; "0"] else parts in
  bool_decide (length parts ≤ 9)%nat &&
  (* an empty part strictly inside marks the '::' *)
  let inner := removelast (tail parts) in
  let skips := filter (λ i, inner !! i = Some "") (seq 0 (length inner)) in
  let first_empty := bool_decide (head parts = Some "") in
  let last_empty := bool_decide (List.last parts "" = "") in
  match skips with
  | [i] =>
      let skip_index := S i in
      let parts_hi := skip_index in
      let parts_lo := (length parts - skip_index - 1)%nat in
      (negb first_empty || bool_decide (parts_hi - 1 = 0)%nat) &&
      (negb last_empty || bool_decide (parts_lo - 1 = 0)%nat) &&
      let parts_hi := if first_empty then (parts_hi - 1)%nat else parts_hi in
      let parts_lo := if last_empty then (parts_lo - 1)%nat else parts_lo in
      bool_decide (parts_hi + parts_lo < 8)%nat &&
      forallb hextet_ok (take parts_hi parts) &&
      forallb hextet_ok (drop (length parts - parts_lo) parts)
  | [] =>
      bool_decide (length parts = 8%nat) && negb first_empty && negb last_empty
      && forallb hextet_ok parts
  | _ => false
  end.

(** [IPv6Address(s)] succeeds: no slash, a scope id that is neither empty
    nor holds a second percent sign, and a well-formed address. *)
Definition ipv6_ok (s : string) : bool :=
  negb (has_char "/" s) &&
  match str_partition "%" s with
  | None => ipv6_int_ok s
  | Some (addr, scope_id) =>
      negb (bool_decide (scope_id = "")) && negb (has_char "%" scope_id)
      && ipv6_int_ok addr
  end.

(** [_check_bracketed_host] returns: an IPvFuture literal, or an address
    that [ipaddress.ip_address] reads as IPv6. *)
Definition check_bracketed_host (hostname : string) : bool :=
  if startswith "v" hostname then
    re_fullmatch (Lit "v" · Plus (Chr is_hex_digit) · Lit "." · Plus Dot) hostname
  else if ipv4_ok hostname then false
  else ipv6_ok hostname.

(** [_check_bracketed_netloc] returns. *)
Definition check_bracketed_netloc (netloc : string) : bool :=
  let hostname_and_port := after_last "@" netloc in
  match str_partition "[" hostname_and_port with
  | Some (before_bracket, bracketed) =>
      bool_decide (before_bracket = "") &&
      match str_partition "]" bracketed with
      | Some (hostname, port) =>
          (bool_decide (port = "") || startswith ":" port)
          && check_bracketed_host hostname
      | None => check_bracketed_host bracketed
      end
  | None => check_bracketed_host (before_first ":" hostname_and_port)
  end.

(** ** [urllib.parse.urlparse(url).path] *)

Definition scheme_chars (c : ascii) : bool :=
  is_ascii_alpha c || is_digit c
  || bool_decide (c = "+"%char) || bool_decide (c = "-"%char) || bool_decide (c = "."%char).

Definition uses_params : list string :=
  [""; "ftp"; "hdl"; "prospero"; "http"; "imap"; "https"; "shttp"; "rtsp";
   "rtspu"; "sip"; "sips"; "mms"; "sftp"; "tel"].

(** [_splitparams(url)[0]] *)
Definition splitparams_path (url : string) : string :=
  if has_char "/" url then
    let tail := after_last "/" url in
    let head := str_take (String.length url - String.length tail) url in
    head +:+ before_first ";" tail
  else before_first ";" url.

(** [unicodedata.normalize('NFKC', c)] for one character of code point
    up to 255, as code points.  On a string of such characters the
    normal form is the concatenation of the forms of its characters:
    none of them is a combining mark, and each mark that a form
    introduces follows a space in it. *)
Definition nfkc (c : ascii) : list N :=
  match code c with
  | 160 => [32]                (* NO-BREAK SPACE *)
  | 168 => [32; 776]           (* DIAERESIS *)
  | 170 => [97]                (* FEMININE ORDINAL INDICATOR *)
  | 175 => [32; 772]           (* MACRON *)
  | 178 => [50]                (* SUPERSCRIPT TWO *)
  | 179 => [51]                (* SUPERSCRIPT THREE *)
  | 180 => [32; 769]           (* ACUTE ACCENT *)
  | 181 => [956]               (* MICRO SIGN *)
  | 184 => [32; 807]           (* CEDILLA *)
  | 185 => [49]                (* SUPERSCRIPT ONE *)
  | 186 => [111]               (* MASCULINE ORDINAL INDICATOR *)
  | 188 => [49; 8260; 52]      (* VULGAR FRACTION ONE QUARTER *)
  | 189 => [49; 8260; 50]      (* VULGAR FRACTION ONE HALF *)
  | 190 => [51; 8260; 52]      (* VULGAR FRACTION THREE QUARTERS *)
  | n => [n]
  end%N.

Fixpoint code_points (s : string) : list N :=
  match s with
  | "" => []
  | String c s' => code c :: code_points s'
  end.

Fixpoint normalize_nfkc (s : string) : list N :=
  match s with
  | "" => []
  | String c s' => nfkc c ++ normalize_nfkc s'
  end.

(** [str.isascii] on one character. *)
Definition is_ascii : ascii → bool := between 0 127.

(** [_checknetloc(netloc)] *)
Definition checknetloc (netloc : string) : result unit :=
  if bool_decide (netloc = "") || str_all is_ascii netloc then Ok ()
  else
    let n :=
      str_filter (λ c, negb (bool_decide (c = "@"%char) || bool_decide (c = ":"%char)
                             || bool_decide (c = "#"%char) || bool_decide (c = "?"%char)))
                 netloc in
    let netloc2 := normalize_nfkc n in
    if bool_decide (code_points n = netloc2) then Ok ()
    else if existsb (λ c, bool_decide (code c ∈ netloc2))
                    ["/"%char; "?"%char; "#"%char; "@"%char; ":"%char]
    then Raise ValueError
    else Ok ().

(** The path component of [urlparse(url)], or the [ValueError] of
    [urlsplit]. *)
Definition urlparse_path (url : string) : result string :=
  (* url.lstrip(_WHATWG_C0_CONTROL_OR_SPACE) *)
  let url := (str_span (between 0 32) url).2 in
  (* _UNSAFE_URL_BYTES_TO_REMOVE *)
  let url := str_filter (λ c, negb (bool_decide (c = "009"%char) || bool_decide (c = "013"%char)
                                    || bool_decide (c = newline))) url in
  let '(scheme, url) :=
    match str_partition ":" url with
    | Some (String c0 pre, rest) =>
        if is_ascii_alpha c0 && str_all scheme_chars (String c0 pre)
        then (lower (String c0 pre), rest) else ("", url)
    | _ => ("", url)
    end in
  split ←
    (if startswith "//" url then
       (* _splitnetloc(url, 2) *)
       let '(netloc, url) :=
         str_span (λ c, negb (bool_decide (c = "/"%char) || bool_decide (c = "?"%char)
                              || bool_decide (c = "#"%char))) (str_drop 2 url) in
       if has_char "[" netloc && negb (has_char "]" netloc)
          || has_char "]" netloc && negb (has_char "[" netloc)
       then Raise ValueError
       else if has_char "[" netloc && has_char "]" netloc
               && negb (check_bracketed_netloc netloc)
       then Raise ValueError
       else Ok (netloc, url)
     else Ok ("", url));
  let '(netloc, url) := split in
  let url := before_first "#" url in
  let url := before_first "?" url in
  _ ← checknetloc netloc;
  Ok (if bool_decide (scheme ∈ uses_params) && has_char ";" url
      then splitparams_path url else url).

(** ** [pathlib.Path(p).name] *)

(** The last component of [p] that is neither empty nor a dot, and the
    empty string when there is none. *)
Definition path_name (p : string) : string :=
  List.last (filter (λ x, x ≠ "" ∧ x ≠ ".") (str_split "/" p)) "".

(** * The program *)

(** ** [extract_package_info] *)

(** [r'\.(conda|tar\.bz2)$'] *)
Definition extension_re : regex :=
  Lit "." · Group 1 (Alt (Lits "conda") (Lits "tar" · Lit "." · Lits "bz2")) · Eol.

(** The version group of the pattern below: [\d+(?:\.\d+)*(?:\w+)?] *)
Definition version_re : regex :=
  Plus Digit · Star (Lit "." · Plus Digit) · Opt (Plus Word).

(** [r'^(.+?)-(\d+(?:\.\d+)*(?:\w+)?)-.*$'] *)
Definition name_version_re : regex :=
  Bol · Group 1 (LazyPlus Dot) · Lit "-" · Group 2 version_re · Lit "-" · Star Dot · Eol.

(** [r'^\d+'] *)
Definition leading_digits_re : regex := Bol · Plus Digit.

(** Lines 32 to 35: the file name of the locator, without its archive
    extension. *)
Definition cleaned_filename (conda_url : string) : result string :=
  path ← urlparse_path conda_url;
  let filename := path_name path in
  Ok (re_sub_empty extension_re filename).

(** Lines 49 to 53: [for i in range(len(parts)-1, 0, -1)], entered at [i]. *)
Fixpoint version_scan (parts : list string) (i : nat) : option (string * string) :=
  match i with
  | 0 => None
  | S j =>
      let part := default "" (parts !! i) in
      if bool_decide (is_Some (re_match leading_digits_re part))
      then Some (str_join "-" (take i parts), part)
      else version_scan parts j
  end.

(** Lines 39 to 56: the name and the version of a cleaned file name. *)
Definition parse_filename (filename : string) : string * string :=
  match re_match name_version_re filename with
  | Some m => (group 1 m, group 2 m)
  | None =>
      let parts := str_split "-" filename in
      match (if bool_decide (2 ≤ length parts)
             then version_scan parts (length parts - 1) else None) with
      | Some name_version => name_version
      | None => (filename, "unknown")
      end
  end.

Definition extract_package_info (conda_url : string) : result (string * string) :=
  parse_filename <$> cleaned_filename conda_url.

(** ** The lock document and the package records *)

(** A [dict] with string keys, in insertion order (the order in which
    [.items()] iterates). *)
Abbreviation dict V := (list (string * V)).

(** [d.get(k)]; [k in d] is [is_Some (dict_get k d)] and [d[k]] its value. *)
Fixpoint dict_get {V} (k : string) (d : dict V) : option V :=
  match d with
  | [] => None
  | (k', v) :: d' => if bool_decide (k' = k) then Some v else dict_get k d'
  end.

(** A package entry of a platform, such as [{'conda': url, ...}] or
    [{'pypi': url, ...}]. *)
Abbreviation package_entry := (dict string).

(** The value of an environment: its ['packages'] key, when present, maps
    a platform to its entries. *)
Record env_data := { packages : option (dict (list package_entry)) }.

(** The parsed lock file: its ['environments'] key, when present, maps an
    environment name to its value. *)
Record pixi_lock := { environments : option (dict env_data) }.

(** The records that [extract_packages_from_pixi_lock] appends. *)
Record package := {
  name : string;
  version : string;
  environment : string;
  platform : string;
  url : string;
  ecosystem : string
}.

(** ** Printing and raising *)

(** The lines that the extraction prints. *)
Inductive message :=
| NoEnvironmentsFound.   (* "No environments found in pixi.lock" *)

(** A computation that may print and may raise. *)
Definition Py (A : Type) : Type := list message → result A * list message.

Global Instance py_ret : MRet Py := λ A a out, (Ok a, out).
Global Instance py_bind : MBind Py := λ A B f m out,
  match m out with
  | (Ok a, out') => f a out'
  | (Raise e, out') => (Raise e, out')
  end.

Definition print (m : message) : Py unit := λ out, (Ok (), out ++ [m]).

Definition lift {A} (r : result A) : Py A := λ out, (r, out).

(** [for x in xs: body], threading the local state [s]. *)
Fixpoint for_each {X S} (xs : list X) (body : S → X → Py S) (s : S) : Py S :=
  match xs with
  | [] => mret s
  | x :: xs' => s' ← body s x; for_each xs' body s'
  end.

(** ** [extract_packages_from_pixi_lock] *)

Definition extract_packages_from_pixi_lock (data : pixi_lock) : Py (list package) :=
  let packages0 : list package := [] in
  match environments data with
  | None => _ ← print NoEnvironmentsFound; mret packages0
  | Some envs =>
      for_each envs (λ acc '(env_name, env_data),
        match packages env_data with
        | None => mret acc                                    (* continue *)
        | Some platforms =>
            for_each platforms (λ acc '(platform, platform_packages),
              for_each platform_packages (λ acc package_entry,
                match dict_get "conda" package_entry with
                | Some conda_url =>
                    '(name, version) ← lift (extract_package_info conda_url);
                    mret (acc ++ [{| name := name; version := version;
                                     environment := env_name; platform := platform;
                                     url := conda_url; ecosystem := "conda" |}])
                | None => mret acc
                end) acc) acc
        end) packages0
  end.

(** ** [create_requirements_txt] *)

Definition python_indicators : list string :=
  ["python"; "py-"; "pip"; "setuptools"; "wheel"; "certifi";
   "charset-normalizer"; "idna"; "urllib3"; "requests"; "numpy";
   "pandas"; "scipy"; "matplotlib"; "seaborn"; "scikit-learn";
   "tensorflow"; "torch"; "pytorch"; "flask"; "django"; "fastapi";
   "pydantic"; "sqlalchemy"; "psycopg2"; "pymongo"; "redis-py";
   "brotli-python"; "pycparser"; "pysocks"; "pyyaml"; "markupsafe";
   "jinja2"; "networkx"; "gitpython"; "typing_extensions"].

(** The five tests of lines 107 to 111, on [name = pkg['name'].lower()]. *)
Definition indicator_in (name : string) : bool :=
  existsb (λ indicator, contains indicator name) python_indicators.
Definition py_prefix (name : string) : bool := startswith "py" name.
Definition py_infix (name : string) : bool := contains "-py" name.
Definition python_suffix (name : string) : bool := endswith "-python" name.
Definition python_substring (name : string) : bool := contains "python" name.

Definition is_python_package (pkg : package) : bool :=
  let name := lower (pkg.(name)) in
  indicator_in name || py_prefix name || py_infix name
  || python_suffix name || python_substring name.

(** The set of lines written to the file (sorted there), and the count
    returned. *)
Definition create_requirements_txt (packages : list package) : gset string * nat :=
  let python_packages :=
    foldl (λ (python_packages : gset string) pkg,
             if is_python_package pkg then
               if bool_decide (pkg.(version) ≠ "unknown")
               then python_packages ∪ {[ pkg.(name) +:+ "==" +:+ pkg.(version) ]}
               else python_packages ∪ {[ pkg.(name) ]}
             else python_packages) ∅ packages in
  (python_packages, size python_packages).

(** ** [create_osv_lockfile] *)

Module Osv.
(** A value of [lockfile["packages"]]. *)
Record entry := {
  name : string;
  version : string;
  resolved : string;
  ecosystem : string;
  environment : string;
  platform : string
}.

(** [lockfile["metadata"]]; the two lists are built from sets. *)
Record metadata := {
  generator : string;
  total_packages : nat;
  environments : gset string;
  platforms : gset string
}.

Record lockfile := {
  lockfileVersion : nat;
  source : string;
  generated : bool;
  meta : metadata;
  packages : gmap string entry
}.
End Osv.

(** [f"{pkg['name']}@{pkg['version']}"] *)
Definition pkg_key (pkg : package) : string :=
  pkg.(name) +:+ "@" +:+ pkg.(version).

Definition osv_entry (pkg : package) : Osv.entry :=
  {| Osv.name := pkg.(name); Osv.version := pkg.(version);
     Osv.resolved := pkg.(url); Osv.ecosystem := "conda";
     Osv.environment := pkg.(environment); Osv.platform := pkg.(platform) |}.

(** The manifest dumped to the file, and the count returned. *)
Definition create_osv_lockfile (packages : list package) : Osv.lockfile * nat :=
  let lockfile_packages :=
    foldl (λ (m : gmap string Osv.entry) pkg, <[pkg_key pkg := osv_entry pkg]> m)
          ∅ packages in
  ({| Osv.lockfileVersion := 1; Osv.source := "pixi.lock"; Osv.generated := true;
      Osv.meta :=
        {| Osv.generator := "pixi_to_osv.py";
           Osv.total_packages := length packages;
           Osv.environments := list_to_set (environment <$> packages);
           Osv.platforms := list_to_set (platform <$> packages) |};
      Osv.packages := lockfile_packages |},
   size lockfile_packages).

(** ** [create_package_json_style] *)

Module Npm.
(** A value of [package_lock["dependencies"]]. *)
Record dependency := {
  version : string;
  resolved : string;
  ecosystem : string
}.

Record package_lock := {
  name : string;
  lockfileVersion : nat;
  requires : bool;
  (** [package_lock["packages"][""]["dependencies"]] *)
  root_dependencies : gmap string string;
  dependencies : gmap string dependency
}.
End Npm.

Definition npm_dependency (pkg : package) : Npm.dependency :=
  {| Npm.version := pkg.(version); Npm.resolved := pkg.(url);
     Npm.ecosystem := "conda" |}.

(** The manifest dumped to the file, and the count returned. *)
Definition create_package_json_style (packages : list package) : Npm.package_lock * nat :=
  let package_lock :=
    foldl (λ (lock : Npm.package_lock) pkg,
             if bool_decide (pkg.(version) ≠ "unknown") then
               {| Npm.name := lock.(Npm.name);
                  Npm.lockfileVersion := lock.(Npm.lockfileVersion);
                  Npm.requires := lock.(Npm.requires);
                  Npm.root_dependencies :=
                    <[pkg.(name) := pkg.(version)]> (lock.(Npm.root_dependencies));
                  Npm.dependencies :=
                    <[pkg.(name) := npm_dependency pkg]> (lock.(Npm.dependencies)) |}
             else lock)
          {| Npm.name := "pixi-converted-packages"; Npm.lockfileVersion := 2;
             Npm.requires := true; Npm.root_dependencies := ∅;
             Npm.dependencies := ∅ |}
          packages in
  (package_lock, size (package_lock.(Npm.dependencies))).

(** ** [create_conda_requirements] *)

(** The set of lines written to the file (sorted there), and the count
    returned. *)
Definition create_conda_requirements (packages : list package) : gset string * nat :=
  let conda_packages :=
    foldl (λ (conda_packages : gset string) pkg,
             if bool_decide (pkg.(version) ≠ "unknown")
             then conda_packages ∪ {[ pkg.(name) +:+ "==" +:+ pkg.(version) ]}
             else conda_packages ∪ {[ pkg.(name) ]}) ∅ packages in
  (conda_packages, size conda_packages).

(** ** [main]

    The file system is the input and the output of [main]: what
    "pixi.lock" is when the script starts, and the files written under
    "osv-lockfiles".  Creating that directory and opening the files there
    are taken to succeed. *)

(** "pixi.lock" as [main] and [parse_pixi_lock] see it. *)
Inductive lock_file :=
| Missing                     (* Path(pixi_lock_path).exists() is false *)
| Unreadable                  (* open or yaml.safe_load raises: parse_pixi_lock
                                 prints the error and returns {} *)
| Falsy                       (* the file loads to a falsy value: None, {} *)
| Document (data : pixi_lock) (* the file loads to a mapping that is not empty *).

(** The lines that [main] and the functions it calls print, one
    constructor for each [print] of the source. *)
Inductive line :=
| Converting                          (* line 209 *)
| NotFound                            (* line 212 *)
| ErrorParsing                        (* line 26 *)
| FailedToParse                       (* line 218 *)
| Extraction (m : message)            (* line 63 *)
| NoPackagesFound                     (* line 224 *)
| Found (n : nat)                     (* line 227 *)
| Creating                            (* line 234 *)
| RequirementsWritten (n : nat)       (* line 238 *)
| CondaRequirementsWritten (n : nat)  (* line 242 *)
| OsvLockfileWritten (n : nat)        (* line 246 *)
| PackageLockWritten (n : nat)        (* line 250 *)
| Completed                           (* line 274 *)
| OutputDirectory                     (* line 275 *)
| TotalPackages (n : nat)             (* line 276 *)
| PythonPackages (n : nat)            (* line 277 *)
| AllPackages (n : nat)               (* line 278 *)
| FilesCreated                        (* line 280 *)
| ListedRequirements                  (* line 281 *)
| ListedCondaRequirements             (* line 282 *)
| ListedOsvLockfile                   (* line 283 *)
| ListedPackageLock                   (* line 284 *)
| ListedSummary                       (* line 285 *)
| ToScan                              (* line 287 *)
| ScanRequirements                    (* line 288 *)
| ScanDirectory.                      (* line 289 *)

(** [summary["conversion_summary"]], [summary["osv_files_created"]] and
    [summary["packages"]]. *)
Record summary := {
  source_file : string;
  total_packages_found : nat;
  python_packages : nat;
  conda_packages : nat;
  summary_environments : gset string;
  summary_platforms : gset string;
  osv_files_created : list string;
  sample : list package
}.

(** The files of "osv-lockfiles", with what is dumped to each. *)
Inductive file :=
| RequirementsTxt (lines : gset string)
| CondaRequirementsTxt (lines : gset string)
| OsvLockfileJson (lockfile : Osv.lockfile)
| PackageLockJson (package_lock : Npm.package_lock)
| ConversionSummaryJson (s : summary).

Inductive outcome :=
| Returns
| Exits (status : nat)       (* sys.exit(status) *)
| Raises (e : exn).          (* an exception that nothing catches *)

Record execution := {
  printed : list line;
  written : list file;
  ending : outcome
}.

Definition main (lock : lock_file) : execution :=
  let pixi_lock_path := "pixi.lock" in
  match lock with
  | Missing =>
      {| printed := [Converting; NotFound]; written := []; ending := Exits 1 |}
  | Unreadable =>
      {| printed := [Converting; ErrorParsing; FailedToParse]; written := [];
         ending := Exits 1 |}
  | Falsy =>
      {| printed := [Converting; FailedToParse]; written := []; ending := Exits 1 |}
  | Document data =>
      match extract_packages_from_pixi_lock data [] with
      | (Raise e, out) =>
          {| printed := Converting :: (Extraction <$> out); written := [];
             ending := Raises e |}
      | (Ok [], out) =>
          {| printed := Converting :: (Extraction <$> out) ++ [NoPackagesFound];
             written := []; ending := Exits 1 |}
      | (Ok packages, out) =>
          let '(requirements, python_count) := create_requirements_txt packages in
          let '(conda_requirements, conda_count) := create_conda_requirements packages in
          let '(osv_lockfile, osv_count) := create_osv_lockfile packages in
          let '(package_lock, npm_count) := create_package_json_style packages in
          let summary :=
            {| source_file := pixi_lock_path;
               total_packages_found := length packages;
               python_packages := python_count;
               conda_packages := conda_count;
               summary_environments := list_to_set (environment <$> packages);
               summary_platforms := list_to_set (platform <$> packages);
               osv_files_created :=
                 ["requirements.txt"; "conda-requirements.txt"; "osv-lockfile.json";
                  "package-lock.json"];
               sample := take 10 packages |} in
          {| printed :=
               Converting :: (Extraction <$> out) ++
               [Found (length packages); Creating;
                RequirementsWritten python_count;
                CondaRequirementsWritten conda_count;
                OsvLockfileWritten osv_count;
                PackageLockWritten npm_count;
                Completed; OutputDirectory; TotalPackages (length packages);
                PythonPackages python_count; AllPackages conda_count;
                FilesCreated; ListedRequirements; ListedCondaRequirements;
                ListedOsvLockfile; ListedPackageLock; ListedSummary;
                ToScan; ScanRequirements; ScanDirectory];
             written :=
               [RequirementsTxt requirements;
                CondaRequirementsTxt conda_requirements;
                OsvLockfileJson osv_lockfile;
                PackageLockJson package_lock;
                ConversionSummaryJson summary];
             ending := Returns |}
      end
  end.

(** * Theory *)

(** ** Strings *)

Lemma app_nil_l_str (s : string) : "" +:+ s = s.
Proof. reflexivity. Qed.

Lemma app_cons_str (a : ascii) (s t : string) : String a s +:+ t = String a (s +:+ t).
Proof. reflexivity. Qed.

Ltac norm_app := rewrite ?app_cons_str, ?app_nil_l_str in *.

Lemma app_nil_r_str (s : string) : s +:+ "" = s.
Proof. induction s as [|a s IH]; norm_app; [done | by rewrite IH]. Qed.

Lemma app_assoc_str (s t u : string) : (s +:+ t) +:+ u = s +:+ t +:+ u.
Proof. induction s as [|a s IH]; norm_app; [done | by rewrite IH]. Qed.

Lemma length_app_str (s t : string) :
  String.length (s +:+ t) = String.length s + String.length t.
Proof. induction s as [|a s IH]; norm_app; simpl; [done | by rewrite IH]. Qed.

Lemma length_app_lt (w s : string) :
  String.length s < String.length (w +:+ s) ↔ w ≠ "".
Proof. rewrite length_app_str. destruct w; simpl; split; (done || lia). Qed.

Lemma take_app_str (w s : string) :
  str_take (String.length (w +:+ s) - String.length s) (w +:+ s) = w.
Proof.
  rewrite length_app_str.
  replace (String.length w + String.length s - String.length s) with (String.length w) by lia.
  induction w as [|a w IH]; norm_app; simpl; [by destruct s | by rewrite IH].
Qed.

Lemma take_drop_str (n : nat) (s : string) : str_take n s +:+ str_drop n s = s.
Proof.
  revert s; induction n as [|n IH]; intros [|a s]; simpl; norm_app; try done.
  by rewrite IH.
Qed.

Lemma length_take_str (n : nat) (s : string) :
  n ≤ String.length s → String.length (str_take n s) = n.
Proof.
  revert s; induction n as [|n IH]; intros [|a s]; simpl; try done; try lia.
  intros ?. rewrite IH; lia.
Qed.

Lemma drop_app_str (w s : string) : str_drop (String.length w) (w +:+ s) = s.
Proof. induction w as [|a w IH]; norm_app; simpl; [by destruct s | done]. Qed.

Lemma str_all_app (p : ascii → bool) (s t : string) :
  str_all p (s +:+ t) = str_all p s && str_all p t.
Proof. induction s as [|a s IH]; norm_app; simpl; [done | by rewrite IH, andb_assoc]. Qed.

(** ** Regular languages of the patterns without groups and anchors *)

Fixpoint simple (r : regex) : bool :=
  match r with
  | Eps | Chr _ => true
  | Cat r1 r2 | Alt r1 r2 => simple r1 && simple r2
  | Opt r' | Star r' | Plus r' | LazyPlus r' => simple r'
  | Group _ _ | Bol | Eol => false
  end.

(** [lang r w]: the pattern [r] matches exactly the word [w]. *)
Inductive lang : regex → string → Prop :=
| lang_eps : lang Eps ""
| lang_chr p a : p a = true → lang (Chr p) (String a "")
| lang_cat r1 r2 w1 w2 : lang r1 w1 → lang r2 w2 → lang (Cat r1 r2) (w1 +:+ w2)
| lang_alt_l r1 r2 w : lang r1 w → lang (Alt r1 r2) w
| lang_alt_r r1 r2 w : lang r2 w → lang (Alt r1 r2) w
| lang_opt_none r : lang (Opt r) ""
| lang_opt_some r w : lang r w → lang (Opt r) w
| lang_star_nil r : lang (Star r) ""
| lang_star_cons r w1 w2 :
    lang r w1 → w1 ≠ "" → lang (Star r) w2 → lang (Star r) (w1 +:+ w2)
| lang_plus r w1 w2 : lang r w1 → lang (Star r) w2 → lang (Plus r) (w1 +:+ w2)
| lang_lazy_plus r w1 w2 : lang r w1 → lang (Star r) w2 → lang (LazyPlus r) (w1 +:+ w2).

Section MatcherTheory.
Context {A : Type}.
Variable subject_len : nat.

Abbreviation cont := (string → captures → option A).

(** What a matcher of [r] owes to [lang r]: a result comes from a word
    of the language, and a word of the language gives a result. *)
Definition sound (r : regex) (body : cont → cont) : Prop :=
  ∀ k s c x, body k s c = Some x →
    ∃ w s', s = w +:+ s' ∧ lang r w ∧ k s' c = Some x.

Definition complete (r : regex) (body : cont → cont) : Prop :=
  ∀ k w s' c x, lang r w → k s' c = Some x → is_Some (body k (w +:+ s') c).

Lemma greedy_sound r body :
  sound r body → ∀ fuel, sound (Star r) (λ k, greedy body k fuel).
Proof.
  intros Hb fuel; induction fuel as [|fuel IH]; intros k s c x; simpl.
  - intros Hk. exists "", s. eauto using lang.
  - destruct (body _ s c) as [y|] eqn:Hy.
    + intros [= ->]. apply Hb in Hy as (w1 & s1 & -> & Hw1 & Hk).
      destruct (decide _) as [Hlt|]; [|done].
      apply IH in Hk as (w2 & s2 & -> & Hw2 & Hk).
      exists (w1 +:+ w2), s2. rewrite app_assoc_str. split_and!; [done| |done].
      apply length_app_lt in Hlt. by constructor.
    + intros Hk. exists "", s. eauto using lang.
Qed.

Lemma greedy_complete r body :
  complete r body →
  ∀ k w s' c x fuel, lang (Star r) w → k s' c = Some x →
    String.length (w +:+ s') ≤ fuel → is_Some (greedy body k fuel (w +:+ s') c).
Proof.
  intros Hb k w s' c x fuel Hw Hk. revert fuel.
  remember (Star r) as r0 eqn:Hr0.
  induction Hw as [| | | | | | | |r' w1 w2 Hw1 _ Hne Hw2 IH| |]; try done.
  - intros [|fuel] _; simpl; norm_app; [eauto|]. destruct (body _ s' c); eauto.
  - injection Hr0 as ->. intros fuel Hf. rewrite app_assoc_str in *.
    pose proof (proj2 (length_app_lt w1 (w2 +:+ s')) Hne) as Hlt.
    destruct fuel as [|fuel]; [lia|].
    destruct (IH eq_refl fuel) as [z Hz]; [lia|]. simpl.
    match goal with
    | |- context [body ?K _ _] => destruct (Hb K w1 (w2 +:+ s') c z Hw1) as [y Hy]
    end.
    { cbv beta. by rewrite decide_True. }
    rewrite Hy. eauto.
Qed.

Lemma lazy_sound r body :
  sound r body → ∀ fuel, sound (Star r) (λ k, lazy_loop body k fuel).
Proof.
  intros Hb fuel; induction fuel as [|fuel IH]; intros k s c x; simpl.
  - destruct (k s c) eqn:Hk; [|done]. intros [= ->]. exists "", s. eauto using lang.
  - destruct (k s c) eqn:Hk.
    + intros [= ->]. exists "", s. eauto using lang.
    + intros Hy. apply Hb in Hy as (w1 & s1 & -> & Hw1 & Hk1).
      destruct (decide _) as [Hlt|]; [|done].
      apply IH in Hk1 as (w2 & s2 & -> & Hw2 & Hk2).
      exists (w1 +:+ w2), s2. rewrite app_assoc_str. split_and!; [done| |done].
      apply length_app_lt in Hlt. by constructor.
Qed.

Lemma lazy_complete r body :
  complete r body →
  ∀ k w s' c x fuel, lang (Star r) w → k s' c = Some x →
    String.length (w +:+ s') ≤ fuel → is_Some (lazy_loop body k fuel (w +:+ s') c).
Proof.
  intros Hb k w s' c x fuel Hw Hk. revert fuel.
  remember (Star r) as r0 eqn:Hr0.
  induction Hw as [| | | | | | | |r' w1 w2 Hw1 _ Hne Hw2 IH| |]; try done.
  - intros [|fuel] _; simpl; norm_app; rewrite Hk; eauto.
  - injection Hr0 as ->. intros fuel Hf. rewrite app_assoc_str in *.
    pose proof (proj2 (length_app_lt w1 (w2 +:+ s')) Hne) as Hlt.
    destruct fuel as [|fuel]; [lia|]. simpl.
    destruct (k (w1 +:+ w2 +:+ s') c); [eauto|].
    destruct (IH eq_refl fuel) as [z Hz]; [lia|].
    eapply (Hb _ w1 (w2 +:+ s') c z Hw1).
    cbv beta. by rewrite decide_True.
Qed.

(** The matcher is sound and complete for the language of a simple
    pattern. *)
Lemma exec_sound r : simple r → sound r (exec subject_len r).
Proof.
  induction r as [|p|r1 IH1 r2 IH2|r1 IH1 r2 IH2|r IH|r IH|r IH|r IH|n r IH| |];
    simpl; intros Hs k s c x; try done.
  - intros Hk. exists "", s. eauto using lang.
  - destruct s as [|a s]; [done|]. destruct (p a) eqn:Hp; [|done].
    intros Hk. exists (String a ""), s. eauto using lang.
  - apply andb_prop_elim in Hs as [Hs1 Hs2].
    intros H. apply IH1 in H as (w1 & s1 & -> & Hw1 & H); [|done].
    apply IH2 in H as (w2 & s2 & -> & Hw2 & H); [|done].
    exists (w1 +:+ w2), s2. rewrite app_assoc_str. eauto using lang.
  - apply andb_prop_elim in Hs as [Hs1 Hs2].
    destruct (exec _ r1 k s c) eqn:H1.
    + intros [= ->]. apply IH1 in H1 as (w & s' & -> & Hw & H); [|done].
      exists w, s'. eauto using lang.
    + intros H. apply IH2 in H as (w & s' & -> & Hw & H); [|done].
      exists w, s'. eauto using lang.
  - destruct (exec _ r k s c) eqn:H1.
    + intros [= ->]. apply IH in H1 as (w & s' & -> & Hw & H); [|done].
      exists w, s'. eauto using lang.
    + intros H. exists "", s. eauto using lang.
  - intros H. by apply (greedy_sound r _ (IH Hs)) in H.
  - intros H. apply IH in H as (w1 & s1 & -> & Hw1 & H); [|done].
    apply (greedy_sound r _ (IH Hs)) in H as (w2 & s2 & -> & Hw2 & H).
    exists (w1 +:+ w2), s2. rewrite app_assoc_str. eauto using lang.
  - intros H. apply IH in H as (w1 & s1 & -> & Hw1 & H); [|done].
    apply (lazy_sound r _ (IH Hs)) in H as (w2 & s2 & -> & Hw2 & H).
    exists (w1 +:+ w2), s2. rewrite app_assoc_str. eauto using lang.
Qed.

Lemma exec_complete r : simple r → complete r (exec subject_len r).
Proof.
  induction r as [|p|r1 IH1 r2 IH2|r1 IH1 r2 IH2|r IH|r IH|r IH|r IH|n r IH| |];
    simpl; intros Hs k w s' c x Hw Hk; try done.
  - inversion Hw; subst. norm_app. eauto.
  - inversion Hw as [|? a Hp| | | | | | | | |]; subst. norm_app. rewrite Hp. eauto.
  - apply andb_prop_elim in Hs as [Hs1 Hs2]. inversion Hw; subst.
    rewrite app_assoc_str.
    destruct (IH2 Hs2 k w2 s' c x) as [y Hy]; [done..|].
    by eapply IH1.
  - apply andb_prop_elim in Hs as [Hs1 Hs2].
    destruct (exec _ r1 k (w +:+ s') c) eqn:H1; [eauto|].
    inversion Hw; subst.
    + destruct (IH1 Hs1 k w s' c x) as [y Hy]; [done..|]. by rewrite H1 in Hy.
    + by eapply IH2.
  - destruct (exec _ r k (w +:+ s') c) eqn:H1; [eauto|].
    inversion Hw; subst.
    + norm_app. eauto.
    + destruct (IH Hs k w s' c x) as [y Hy]; [done..|]. by rewrite H1 in Hy.
  - by eapply (greedy_complete r _ (IH Hs)).
  - inversion Hw; subst. rewrite app_assoc_str.
    destruct (greedy_complete r _ (IH Hs) k w2 s' c x (String.length (w2 +:+ s')))
      as [y Hy]; [done..|].
    by eapply IH.
  - inversion Hw; subst. rewrite app_assoc_str.
    destruct (lazy_complete r _ (IH Hs) k w2 s' c x (String.length (w2 +:+ s')))
      as [y Hy]; [done..|].
    by eapply IH.
Qed.
End MatcherTheory.

(** ** The extraction loops *)

(** The Lock Document Walker of the specification: for each environment,
    for each platform, for each package entry, if the entry carries the
    ['conda'] tag, its locator with the enclosing environment and platform
    names; nothing when the ['environments'] key is missing. *)
Definition walk (data : pixi_lock) : list (string * string * string) :=
  '(env_name, env_data) ← default [] (environments data);
  '(platform, platform_packages) ← default [] (packages env_data);
  package_entry ← platform_packages;
  match dict_get "conda" package_entry with
  | Some locator => [(locator, env_name, platform)]
  | None => []
  end.

Definition triple_of (pkg : package) : string * string * string :=
  (pkg.(url), pkg.(environment), pkg.(platform)).

(** The record of a triple whose locator parses. *)
Definition record_of (t : string * string * string) : package :=
  let '(locator, env_name, platform) := t in
  let name_version :=
    match extract_package_info locator with
    | Ok nv => nv
    | Raise _ => ("", "")
    end in
  {| name := name_version.1; version := name_version.2; environment := env_name;
     platform := platform; url := locator; ecosystem := "conda" |}.

Lemma for_each_append {X} (g : X → list package) (xs : list X)
    (body : list package → X → Py (list package)) :
  (∀ acc x out, x ∈ xs → body acc x out = (Ok (acc ++ g x), out)) →
  ∀ acc out, for_each xs body acc out = (Ok (acc ++ (xs ≫= g)), out).
Proof.
  induction xs as [|x xs IH]; intros Hbody acc out; simpl.
  - by rewrite app_nil_r.
  - unfold mbind at 1, py_bind. rewrite Hbody by left.
    rewrite IH; [by rewrite app_assoc|].
    intros ????. apply Hbody. by right.
Qed.

Lemma elem_of_walk (data : pixi_lock) (locator env_name platform : string) :
  (locator, env_name, platform) ∈ walk data ↔
  ∃ envs env_data platforms platform_packages package_entry,
    environments data = Some envs ∧ (env_name, env_data) ∈ envs ∧
    packages env_data = Some platforms ∧
    (platform, platform_packages) ∈ platforms ∧
    package_entry ∈ platform_packages ∧
    dict_get "conda" package_entry = Some locator.
Proof.
  unfold walk. split.
  - intros H. apply list_elem_of_bind in H as ([e ed] & H & He).
    apply list_elem_of_bind in H as ([p pp] & H & Hp).
    apply list_elem_of_bind in H as (en & H & Hen).
    destruct (dict_get "conda" en) as [u|] eqn:Hu; [|by apply elem_of_nil in H].
    apply list_elem_of_singleton in H as [= -> -> ->].
    destruct (environments data) as [envs|]; [|by apply elem_of_nil in He].
    destruct (packages ed) as [plats|] eqn:Hpl; [|by apply elem_of_nil in Hp].
    by exists envs, ed, plats, pp, en.
  - intros (envs & ed & plats & pp & en & -> & He & Hpl & Hp & Hen & Hu).
    apply list_elem_of_bind. exists (env_name, ed). split; [|done].
    apply list_elem_of_bind. exists (platform, pp). rewrite Hpl. split; [|done].
    apply list_elem_of_bind. exists en. rewrite Hu. split; [|done].
    by apply list_elem_of_singleton.
Qed.

Lemma fmap_bind_comm {X Y Z} (f : Y → Z) (g : X → list Y) (l : list X) :
  l ≫= (λ x, f <$> g x) = f <$> (l ≫= g).
Proof.
  induction l as [|x l IH]; [done|]. by rewrite !bind_cons, fmap_app, IH.
Qed.

(** When every tagged locator parses, the extraction appends the record of
    each triple of the walk, in order, and prints nothing unless the
    ['environments'] key is missing. *)
Lemma extract_packages_walk (data : pixi_lock) (out : list message) :
  (∀ t, t ∈ walk data → ∃ nv, extract_package_info t.1.1 = Ok nv) →
  extract_packages_from_pixi_lock data out =
    (Ok (record_of <$> walk data),
     out ++ match environments data with Some _ => [] | None => [NoEnvironmentsFound] end).
Proof.
  intros Hok. unfold extract_packages_from_pixi_lock.
  destruct (environments data) as [envs|] eqn:Henvs.
  2:{ unfold walk. rewrite Henvs. done. }
  rewrite app_nil_r.
  rewrite (for_each_append (λ x, record_of <$>
    (let '(env_name, env_data) := x in
     '(platform, platform_packages) ← default [] (packages env_data);
      package_entry ← platform_packages;
      match dict_get "conda" package_entry with
      | Some locator => [(locator, env_name, platform)]
      | None => []
      end))).
  { rewrite fmap_bind_comm. unfold walk. by rewrite Henvs. }
  intros acc [e ed] o1 He.
  destruct (packages ed) as [plats|] eqn:Hplats; [|by rewrite app_nil_r].
  rewrite (for_each_append (λ x, record_of <$>
    (let '(platform, platform_packages) := x in
      package_entry ← platform_packages;
      match dict_get "conda" package_entry with
      | Some locator => [(locator, e, platform)]
      | None => []
      end))).
  { by rewrite fmap_bind_comm. }
  intros acc1 [p pp] o2 Hp.
  rewrite (for_each_append (λ package_entry, record_of <$>
    (match dict_get "conda" package_entry with
     | Some locator => [(locator, e, p)]
     | None => []
     end))).
  { by rewrite fmap_bind_comm. }
  intros acc2 en o3 Hen.
  destruct (dict_get "conda" en) as [u|] eqn:Hu; [|by rewrite app_nil_r].
  destruct (Hok (u, e, p)) as [[n v] Hnv].
  { apply elem_of_walk. by exists envs, ed, plats, pp, en. }
  simpl in Hnv. unfold mbind, py_bind, lift. simpl. by rewrite Hnv.
Qed.

(** ** The manifests *)

Definition same_key (k : string) (pkg : package) : Prop := pkg_key pkg = k.

Global Instance same_key_dec k pkg : Decision (same_key k pkg).
Proof. unfold same_key. apply _. Defined.

(** A record that the npm-style emitter writes under the name [n]. *)
Definition known_named (n : string) (pkg : package) : Prop :=
  pkg.(name) = n ∧ pkg.(version) ≠ "unknown".

Global Instance known_named_dec n pkg : Decision (known_named n pkg).
Proof. unfold known_named. apply _. Defined.

Definition known_version (pkg : package) : Prop := pkg.(version) ≠ "unknown".

Global Instance known_version_dec pkg : Decision (known_version pkg).
Proof. unfold known_version. apply _. Defined.

Lemma osv_packages_lookup (pkgs : list package) (k : string) :
  Osv.packages (create_osv_lockfile pkgs).1 !! k
  = osv_entry <$> last (filter (same_key k) pkgs).
Proof.
  simpl. induction pkgs as [|p pkgs IH] using rev_ind; [done|].
  rewrite foldl_app, filter_app. simpl.
  destruct (decide (pkg_key p = k)) as [Hk|Hk].
  - rewrite Hk, lookup_insert_eq.
    rewrite (filter_cons_True (same_key k)) by done.
    by rewrite filter_nil, last_snoc.
  - rewrite lookup_insert_ne by done.
    rewrite (filter_cons_False (same_key k)) by done.
    by rewrite filter_nil, app_nil_r.
Qed.

Lemma osv_count_le (pkgs : list package) :
  (create_osv_lockfile pkgs).2 ≤ length pkgs.
Proof.
  simpl. induction pkgs as [|p pkgs IH] using rev_ind; [done|].
  rewrite foldl_app, length_app. simpl. rewrite map_size_insert.
  destruct (_ !! _); unfold id; lia.
Qed.

Lemma npm_snoc (pkgs : list package) (p : package) :
  (create_package_json_style (pkgs ++ [p])).1 =
  let lock := (create_package_json_style pkgs).1 in
  if bool_decide (p.(version) ≠ "unknown") then
    {| Npm.name := lock.(Npm.name);
       Npm.lockfileVersion := lock.(Npm.lockfileVersion);
       Npm.requires := lock.(Npm.requires);
       Npm.root_dependencies := <[p.(name) := p.(version)]> (lock.(Npm.root_dependencies));
       Npm.dependencies := <[p.(name) := npm_dependency p]> (lock.(Npm.dependencies)) |}
  else lock.
Proof. simpl. by rewrite foldl_app. Qed.

Lemma npm_lookups (pkgs : list package) :
  let lock := (create_package_json_style pkgs).1 in
  (∀ n, lock.(Npm.dependencies) !! n
        = npm_dependency <$> last (filter (known_named n) pkgs)) ∧
  (∀ n, lock.(Npm.root_dependencies) !! n
        = version <$> last (filter (known_named n) pkgs)) ∧
  dom (lock.(Npm.dependencies))
  = (list_to_set (name <$> filter known_version pkgs) : gset string).
Proof.
  induction pkgs as [|p pkgs (IH1 & IH2 & IH3)] using rev_ind.
  { cbn. by split_and!; intros; rewrite ?dom_empty_L. }
  cbv zeta in *. rewrite npm_snoc. cbv zeta.
  set (lock := (create_package_json_style pkgs).1) in *.
  case_bool_decide as Hv.
  - split_and!.
    + intros n. rewrite filter_app. cbn [Npm.dependencies].
      destruct (decide (p.(name) = n)) as [<-|Hn].
      * rewrite lookup_insert_eq, (filter_cons_True (known_named _)) by done.
        by rewrite filter_nil, last_snoc.
      * rewrite lookup_insert_ne, (filter_cons_False (known_named _)) by first [done | by intros []].
        by rewrite filter_nil, app_nil_r.
    + intros n. rewrite filter_app. cbn [Npm.root_dependencies].
      destruct (decide (p.(name) = n)) as [<-|Hn].
      * rewrite lookup_insert_eq, (filter_cons_True (known_named _)) by done.
        by rewrite filter_nil, last_snoc.
      * rewrite lookup_insert_ne, (filter_cons_False (known_named _)) by first [done | by intros []].
        by rewrite filter_nil, app_nil_r.
    + cbn [Npm.dependencies]. rewrite dom_insert_L, IH3, filter_app.
      rewrite (filter_cons_True known_version) by done.
      rewrite filter_nil, fmap_app, list_to_set_app_L. cbn.
      rewrite (right_id_L ∅ (∪)). apply (comm_L (∪)).
  - assert (Hu : ¬ known_version p) by (by intros Hk).
    assert (Hn : ∀ n, ¬ known_named n p) by (by intros n [_ Hk]).
    split_and!.
    + intros n. rewrite filter_app, (filter_cons_False (known_named _)) by done.
      by rewrite filter_nil, app_nil_r.
    + intros n. rewrite filter_app, (filter_cons_False (known_named _)) by done.
      by rewrite filter_nil, app_nil_r.
    + rewrite filter_app, (filter_cons_False known_version) by done.
      by rewrite filter_nil, app_nil_r.
Qed.

(** ** The primary pattern *)

Definition not_newline (a : ascii) : bool := negb (bool_decide (a = newline)).

(** A string that [$] accepts: the end, or a last newline. *)
Definition line_end (s : string) : Prop := s = "" ∨ s = String newline "".

Definition starts_with_digit (s : string) : bool :=
  match s with
  | String d _ => is_digit d
  | "" => false
  end.

(** What follows the name in the primary pattern:
    [-(\d+(?:\.\d+)*(?:\w+)?)-.*$] *)
Definition tail_re : regex :=
  Lit "-" · Group 2 version_re · Lit "-" · Star Dot · Eol.

Lemma length_drop_str (n : nat) (s : string) :
  String.length (str_drop n s) = String.length s - n.
Proof. revert s; induction n as [|n IH]; intros [|a s]; simpl; auto. Qed.

Lemma lang_star_dots (w : string) : lang (Star Dot) w ↔ str_all not_newline w = true.
Proof.
  split.
  - intros H. remember (Star Dot) as r eqn:Hr.
    induction H as [| | | | | | | |r' w1 w2 Hw1 _ Hne Hw2 IH| |]; try done.
    injection Hr as ->. rewrite str_all_app, IH by done.
    inversion Hw1 as [|? a Ha| | | | | | | | |]; subst. simpl.
    unfold not_newline. by rewrite Ha.
  - induction w as [|a w IH]; simpl; [constructor|].
    intros [Ha Hw]%andb_prop. change (String a w) with (String a "" +:+ w).
    constructor; [by constructor | done | auto].
Qed.

(** The characters of the words of a pattern. *)
Fixpoint classes_in (P : ascii → bool) (r : regex) : Prop :=
  match r with
  | Chr p => ∀ a, p a = true → P a = true
  | Cat r1 r2 | Alt r1 r2 => classes_in P r1 ∧ classes_in P r2
  | Opt r' | Star r' | Plus r' | LazyPlus r' | Group _ r' => classes_in P r'
  | Eps | Bol | Eol => True
  end.

Lemma lang_classes (P : ascii → bool) (r : regex) (w : string) :
  lang r w → classes_in P r → str_all P w = true.
Proof.
  induction 1; simpl; intros Hc; rewrite ?str_all_app;
    repeat match goal with
    | H : _ ∧ _ |- _ => destruct H
    | H : ?A → _ = true |- _ => rewrite H by (simpl; auto)
    end; auto.
  by rewrite Hc.
Qed.

Lemma version_no_newline (v : string) :
  lang version_re v → str_all not_newline v = true.
Proof.
  intros H. apply (lang_classes _ _ _ H). unfold not_newline.
  repeat split; intros a Ha; destruct (bool_decide_reflect (a = newline)) as [->|];
    done.
Qed.

Lemma version_starts_with_digit (v : string) :
  lang version_re v → ∃ d v', v = String d v' ∧ is_digit d = true.
Proof.
  intros H. inversion H as [| |? ? w1 w2 H1 _| | | | | | | |]; subst.
  inversion H1 as [| | | | | | | | |? wa wb Ha _|]; subst.
  inversion Ha as [|? d Hd| | | | | | | | |]; subst.
  norm_app. eauto.
Qed.

Section Primary.
Context {A : Type}.
Variable subject_len : nat.
Implicit Types (k : string → captures → option A) (s : string) (c : captures).

Lemma exec_cat r1 r2 k :
  exec subject_len (r1 · r2) k = exec subject_len r1 (exec subject_len r2 k).
Proof. reflexivity. Qed.

Lemma exec_lit ch k a s c :
  exec subject_len (Lit ch) k (String a s) c
  = if bool_decide (a = ch) then k s c else None.
Proof. reflexivity. Qed.

Lemma exec_group n r k s c :
  exec subject_len (Group n r) k s c
  = exec subject_len r
      (λ s' c', k s' (<[n := str_take (String.length s - String.length s') s]> c')) s c.
Proof. reflexivity. Qed.

Lemma exec_eol k s c :
  exec subject_len Eol k s c = if decide (line_end s) then k s c else None.
Proof. reflexivity. Qed.

Lemma tail_sound k s c x :
  exec subject_len tail_re k s c = Some x →
  ∃ v body e, s = "-" +:+ v +:+ "-" +:+ body +:+ e ∧ lang version_re v ∧
    str_all not_newline body = true ∧ line_end e ∧ k e (<[2 := v]> c) = Some x.
Proof.
  unfold tail_re. rewrite !exec_cat.
  destruct s as [|a s]; [done|]. rewrite exec_lit.
  case_bool_decide as Ha; [subst a|done]. rewrite exec_group.
  intros H. apply exec_sound in H as (v & s1 & -> & Hv & H); [|done].
  rewrite take_app_str in H.
  destruct s1 as [|a s1]; [done|]. rewrite exec_lit in H.
  case_bool_decide as Ha; [subst a|done].
  apply exec_sound in H as (body & e & -> & Hb & H); [|done].
  rewrite exec_eol in H. destruct (decide _) as [He|]; [|done].
  exists v, body, e. by rewrite <- lang_star_dots.
Qed.

Lemma tail_complete k v body e c x :
  lang version_re v → str_all not_newline body = true → line_end e →
  k e (<[2 := v]> c) = Some x →
  is_Some (exec subject_len tail_re k ("-" +:+ v +:+ "-" +:+ body +:+ e) c).
Proof.
  intros Hv Hb He Hk. unfold tail_re. rewrite !exec_cat. norm_app.
  rewrite exec_lit, bool_decide_true, exec_group by done.
  destruct (exec_complete subject_len (Star Dot) I (exec subject_len Eol k)
              body e (<[2 := v]> c) x) as [y Hy].
  { by apply lang_star_dots. }
  { rewrite exec_eol. by rewrite decide_True. }
  eapply (exec_complete _ version_re I _ v _ c y Hv).
  rewrite take_app_str. norm_app. by rewrite exec_lit, bool_decide_true.
Qed.

(** A lazy repetition of a character class stops at the first place
    where the rest of the pattern matches. *)
Lemma lazy_chr_first p k fuel s c x :
  String.length s ≤ fuel →
  lazy_loop (exec subject_len (Chr p)) k fuel s c = Some x →
  ∃ n, n ≤ String.length s ∧ str_all p (str_take n s) = true ∧
    k (str_drop n s) c = Some x ∧ ∀ j, j < n → k (str_drop j s) c = None.
Proof.
  revert fuel; induction s as [|a s IH]; intros fuel Hf H.
  - assert (Hk : k "" c = Some x).
    { destruct fuel; simpl in H; destruct (k "" c); done. }
    exists 0. split_and!; [done..|lia].
  - destruct fuel as [|fuel]; [simpl in Hf; lia|]. simpl in H.
    destruct (k (String a s) c) eqn:Hk.
    { injection H as ->. exists 0. split_and!; simpl; [lia|done..|lia]. }
    destruct (p a) eqn:Hp; [|done].
    rewrite decide_True in H by lia.
    apply IH in H as (n & Hn & Hall & Hkn & Hmin); [|simpl in Hf; lia].
    exists (S n). simpl. rewrite Hp. split_and!; auto; [lia|].
    intros [|j] Hj; [done|]. apply Hmin. lia.
Qed.
End Primary.

Lemma primary_match_spec (f : string) (m : captures) :
  re_match name_version_re f = Some m →
  ∃ nm v body e,
    f = nm +:+ "-" +:+ v +:+ "-" +:+ body +:+ e ∧ nm ≠ "" ∧
    str_all not_newline nm = true ∧ lang version_re v ∧
    str_all not_newline body = true ∧ line_end e ∧
    m = <[2 := v]> (<[1 := nm]> ∅) ∧
    ∀ j, 0 < j < String.length nm →
      exec (String.length f) tail_re (λ _ c, Some c) (str_drop j f)
           (<[1 := str_take j f]> ∅) = None.
Proof.
  unfold re_match. change name_version_re with (Bol · Group 1 (LazyPlus Dot) · tail_re).
  rewrite 2!exec_cat. set (sl := String.length f).
  cbn [exec]. rewrite decide_True by reflexivity.
  destruct f as [|a f1]; [done|]. cbn [exec Dot].
  change (negb (bool_decide (a = newline))) with (not_newline a).
  destruct (not_newline a) eqn:Ha; [|done].
  intros H.
  destruct (lazy_chr_first sl not_newline _ _ _ _ _ (le_n _) H) as (n & Hn & Hall & Hk & Hmin).
  change (str_all not_newline (str_take n f1) = true) in Hall.
  assert (Hlen : ∀ i, i ≤ String.length f1 →
            String.length (String a f1) - String.length (str_drop i f1) = S i).
  { intros i Hi. rewrite length_drop_str. simpl. lia. }
  rewrite Hlen in Hk by done.
  apply tail_sound in Hk as (v & body & e & Hd & Hv & Hb & He & [= <-]).
  exists (str_take (S n) (String a f1)), v, body, e. split_and!; try done.
  - rewrite <- Hd. simpl str_take. norm_app. by rewrite take_drop_str.
  - simpl. by rewrite Ha.
  - intros j [Hj1 Hj2]. rewrite length_take_str in Hj2 by (simpl; lia).
    destruct j as [|j]; [lia|]. specialize (Hmin j ltac:(lia)).
    rewrite Hlen in Hmin by lia. exact Hmin.
Qed.

(** A suffix of a line is a line. *)
Lemma line_suffix (d e p r : string) :
  str_all not_newline d = true → line_end e → d +:+ e = p +:+ r →
  ∃ d' e', r = d' +:+ e' ∧ str_all not_newline d' = true ∧ line_end e'.
Proof.
  intros Hd He. revert d Hd. induction p as [|a p IH]; intros d Hd Heq; norm_app.
  - exists d, e. by subst.
  - destruct d as [|b d]; norm_app.
    + destruct He as [->| ->]; [done|]. injection Heq as _ Heq.
      destruct p; [|done]. norm_app. subst r. exists "", "". split_and!; try done. by left.
    + injection Heq as _ Heq. simpl in Hd. apply andb_prop in Hd as [_ Hd]. eauto.
Qed.

(** The name of a primary match is the shortest one: no shorter leading
    name is followed by a hyphen, a version and a hyphen. *)
Lemma primary_match_shortest (f : string) (m : captures) (n' v' r' : string) :
  re_match name_version_re f = Some m →
  f = n' +:+ "-" +:+ v' +:+ "-" +:+ r' → n' ≠ "" → lang version_re v' →
  String.length (group 1 m) ≤ String.length n'.
Proof.
  intros Hm Hf Hn' Hv'.
  apply primary_match_spec in Hm
    as (nm & v & body & e & Hd & Hnm & Hdn & Hv & Hb & He & -> & Hmin).
  unfold group. rewrite lookup_insert_ne, lookup_insert_eq by done. simpl.
  destruct (decide (String.length nm ≤ String.length n')) as [|Hlt]; [done|exfalso].
  specialize (Hmin (String.length n')).
  destruct n' as [|b n']; [done|].
  rewrite Hf in Hmin at 2 3. rewrite drop_app_str in Hmin.
  assert (Hline : ∃ d' e', r' = d' +:+ e' ∧ str_all not_newline d' = true ∧ line_end e').
  { apply (line_suffix (nm +:+ "-" +:+ v +:+ "-" +:+ body) e
             (String b n' +:+ "-" +:+ v' +:+ "-")); [|done|].
    - rewrite !str_all_app, Hdn, Hb, (version_no_newline v Hv). done.
    - rewrite !app_assoc_str. by rewrite <- Hd, Hf. }
  destruct Hline as (d' & e' & -> & Hd' & He').
  edestruct (tail_complete (String.length f) (λ _ c, Some c) v' d' e') as [y Hy]; [done..|].
  rewrite Hmin in Hy; [done|]. simpl in *. lia.
Qed.

(** ** Splitting on hyphens and the fallback scan *)

Lemma split_cons_ne (c a : ascii) (s : string) :
  a ≠ c → ∃ p ps, str_split c s = p :: ps ∧ str_split c (String a s) = String a p :: ps.
Proof.
  intros Hne. simpl. rewrite bool_decide_false by done.
  assert (H : ∃ p ps, str_split c s = p :: ps).
  { destruct s as [|b s]; simpl; [eauto|].
    case_bool_decide; [eauto|]. destruct (str_split c s); eauto. }
  destruct H as (p & ps & ->). eauto.
Qed.

Lemma split_app_sep (c : ascii) (a b : string) :
  str_split c (a +:+ String c b) = str_split c a ++ str_split c b.
Proof.
  induction a as [|x a IH]; norm_app.
  - simpl. by rewrite bool_decide_true.
  - destruct (decide (x = c)) as [->|Hne].
    + simpl. rewrite !bool_decide_true by done. by rewrite IH.
    + destruct (split_cons_ne c x a Hne) as (p & ps & Hs & ->).
      destruct (split_cons_ne c x (a +:+ String c b) Hne) as (q & qs & Hs' & ->).
      rewrite IH, Hs in Hs'. by injection Hs' as <- <-.
Qed.

Lemma is_digit_not_hyphen (d : ascii) : is_digit d = true → d ≠ "-"%char.
Proof. by intros H ->. Qed.

(** A primary match shows a hyphen-delimited segment that begins with a
    digit. *)
Lemma primary_match_segment (f : string) (m : captures) :
  re_match name_version_re f = Some m →
  ∃ seg, seg ∈ str_split "-" f ∧ starts_with_digit seg = true.
Proof.
  intros (nm & v & body & e & -> & _ & _ & Hv & _)%primary_match_spec.
  apply version_starts_with_digit in Hv as (d & v' & -> & Hd).
  change ("-" +:+ String d v' +:+ "-" +:+ body +:+ e)
    with (String "-" (String d (v' +:+ "-" +:+ body +:+ e))).
  rewrite split_app_sep.
  destruct (split_cons_ne "-" d (v' +:+ "-" +:+ body +:+ e)) as (p & ps & _ & Hs).
  { by apply is_digit_not_hyphen. }
  exists (String d p). split; [|done].
  rewrite Hs. apply elem_of_app. right. by left.
Qed.

Lemma greedy_total {X} (body : (string → captures → option X) → _) k fuel s c :
  (∀ s c, is_Some (k s c)) → is_Some (greedy body k fuel s c).
Proof.
  intros Hk. destruct fuel as [|fuel]; simpl; [done|].
  destruct (body _ s c); eauto.
Qed.

Lemma leading_digits_spec (part : string) :
  is_Some (re_match leading_digits_re part) ↔ starts_with_digit part = true.
Proof.
  unfold re_match, leading_digits_re. cbn [exec]. rewrite decide_True by done.
  destruct part as [|d part]; simpl.
  - split; [by intros [? [=]] | done].
  - fold (is_digit d). destruct (is_digit d); [|split; [by intros [? [=]] | done]].
    split; [done|]. intros _. by apply greedy_total.
Qed.

Lemma version_scan_spec (parts : list string) (i : nat) (n v : string) :
  version_scan parts i = Some (n, v) →
  ∃ j, 0 < j ≤ i ∧ n = str_join "-" (take j parts) ∧
       v = default "" (parts !! j) ∧ starts_with_digit v = true.
Proof.
  induction i as [|i IH]; [done|]. cbn [version_scan].
  case_bool_decide as Hd.
  - intros [= <- <-]. exists (S i). split_and!; try done; [lia..|].
    by apply leading_digits_spec.
  - intros (j & ? & ? & ? & ?)%IH. exists j. split_and!; try done; lia.
Qed.

Lemma version_scan_none (parts : list string) (i : nat) :
  (∀ seg, seg ∈ parts → starts_with_digit seg = false) → version_scan parts i = None.
Proof.
  intros Hno. destruct (version_scan parts i) as [[n v]|] eqn:H; [exfalso|done].
  apply version_scan_spec in H as (j & _ & _ & Hv & Hd).
  destruct (parts !! j) as [seg|] eqn:Hj; simpl in Hv; subst v; [|done].
  apply list_elem_of_lookup_2 in Hj. apply Hno in Hj. congruence.
Qed.

Lemma join_take_nonempty (p : string) (ps : list string) (j : nat) :
  p ≠ "" → 0 < j → str_join "-" (take j (p :: ps)) ≠ "".
Proof.
  intros Hp Hj. destruct j as [|j]; [lia|]. simpl.
  destruct (take j ps); [done|]. by destruct p.
Qed.

(** The name that [parse_filename] returns is empty only for an empty
    file name or one that begins with a hyphen. *)
Lemma parse_filename_name_nonempty (f : string) :
  f ≠ "" → startswith "-" f = false → (parse_filename f).1 ≠ "".
Proof.
  intros Hf Hh. unfold parse_filename.
  destruct (re_match name_version_re f) as [m|] eqn:Hm.
  - apply primary_match_spec in Hm as (nm & v & body & e & _ & Hnm & _ & _ & _ & _ & -> & _).
    simpl. unfold group. by rewrite lookup_insert_ne, lookup_insert_eq.
  - destruct f as [|a f]; [done|]. simpl in Hh.
    assert (Ha : a ≠ "-"%char).
    { intros ->. by rewrite bool_decide_true in Hh. }
    clear Hh. destruct (split_cons_ne "-" a f Ha) as (p & ps & _ & ->).
    case_bool_decide; [|by simpl].
    destruct (version_scan _ _) as [[n v]|] eqn:Hs; [|by simpl].
    apply version_scan_spec in Hs as (j & [Hj _] & -> & _). simpl.
    by apply join_take_nonempty.
Qed.

(** Without a segment that begins with a digit, [parse_filename] gives
    the file name back with the sentinel. *)
Lemma parse_filename_unknown (f : string) :
  (∀ seg, seg ∈ str_split "-" f → starts_with_digit seg = false) →
  parse_filename f = (f, "unknown").
Proof.
  intros Hno. unfold parse_filename.
  destruct (re_match name_version_re f) as [m|] eqn:Hm.
  - apply primary_match_segment in Hm as (seg & Hin & Hd).
    apply Hno in Hin. congruence.
  - rewrite version_scan_none by done. by case_bool_decide.
Qed.

Lemma fullmatch_lang (r : regex) (v : string) :
  simple r → re_fullmatch r v = true ↔ lang r v.
Proof.
  intros Hr. unfold re_fullmatch. rewrite bool_decide_eq_true. split.
  - intros [x Hx]. apply exec_sound in Hx as (w & s' & -> & Hw & Hk); [|done].
    destruct (decide (s' = "")) as [->|]; [|done]. by rewrite app_nil_r_str.
  - intros Hv. rewrite <- (app_nil_r_str v) at 2.
    eapply exec_complete; [done..|]. by rewrite decide_True.
Qed.

(** * The claims *)

(** C1.  A document with the one environment "default", its one platform
    "linux-64" and one entry tagged 'conda' whose locator has the file name
    "brotli-python-1.1.0-py39hf88036b_3.conda" yields exactly one record,
    with name "brotli-python", version "1.1.0", environment "default" and
    platform "linux-64"; the record passes the test of
    [create_requirements_txt], by the indicator "brotli-python" and by the
    "-python" suffix. *)
Theorem scenario_brotli_python (locator : string) (package_entry : dict string)
    (out : list message) :
  dict_get "conda" package_entry = Some locator →
  path_name <$> urlparse_path locator = Ok "brotli-python-1.1.0-py39hf88036b_3.conda" →
  let data :=
    {| environments :=
         Some [("default", {| packages := Some [("linux-64", [package_entry])] |})] |} in
  let pkg :=
    {| name := "brotli-python"; version := "1.1.0"; environment := "default";
       platform := "linux-64"; url := locator; ecosystem := "conda" |} in
  extract_packages_from_pixi_lock data out = (Ok [pkg], out) ∧
  is_python_package pkg = true ∧
  contains "brotli-python" (lower (pkg.(name))) = true ∧
  python_suffix (lower (pkg.(name))) = true ∧
  create_requirements_txt [pkg] = ({[ "brotli-python==1.1.0" ]}, 1).
Proof.
  intros Hget Hname data pkg.
  assert (Hinfo : extract_package_info locator = Ok ("brotli-python", "1.1.0")).
  { unfold extract_package_info, cleaned_filename.
    destruct (urlparse_path locator) as [path|]; [|done].
    injection Hname as Hname. cbn. rewrite Hname. by vm_compute. }
  split_and!; [|by vm_compute..].
  unfold extract_packages_from_pixi_lock, data. cbn. rewrite Hget.
  unfold mbind, py_bind, lift. by rewrite Hinfo.
Qed.

Lemma scenario_brotli_python_witness :
  let locator :=
    "https://conda.anaconda.org/conda-forge/linux-64/brotli-python-1.1.0-py39hf88036b_3.conda" in
  let data :=
    {| environments :=
         Some [("default", {| packages := Some [("linux-64", [[("conda", locator)]])] |})] |} in
  let pkg :=
    {| name := "brotli-python"; version := "1.1.0"; environment := "default";
       platform := "linux-64"; url := locator; ecosystem := "conda" |} in
  extract_packages_from_pixi_lock data [] = (Ok [pkg], []) ∧
  is_python_package pkg = true ∧
  contains "brotli-python" (lower (pkg.(name))) = true ∧
  python_suffix (lower (pkg.(name))) = true ∧
  create_requirements_txt [pkg] = ({[ "brotli-python==1.1.0" ]}, 1).
Proof.
  exact (scenario_brotli_python
    "https://conda.anaconda.org/conda-forge/linux-64/brotli-python-1.1.0-py39hf88036b_3.conda"
    [("conda", "https://conda.anaconda.org/conda-forge/linux-64/brotli-python-1.1.0-py39hf88036b_3.conda")]
    [] eq_refl eq_refl).
Defined.

(** C2, as amended.  A record named "numpy" passes the test of
    [create_requirements_txt] whatever its other fields: "numpy" is one of
    the indicators.  The four other tests fail on it: no "py" prefix, no
    "-py" inside, no "-python" suffix, no "python" inside. *)
Theorem numpy_classified_python (v env pl u eco : string) :
  is_python_package
    {| name := "numpy"; version := v; environment := env; platform := pl;
       url := u; ecosystem := eco |} = true ∧
  "numpy" ∈ python_indicators ∧
  indicator_in (lower "numpy") = true ∧
  py_prefix (lower "numpy") = false ∧
  py_infix (lower "numpy") = false ∧
  python_suffix (lower "numpy") = false ∧
  python_substring (lower "numpy") = false.
Proof.
  split_and!; try by vm_compute.
  unfold python_indicators. set_solver.
Qed.

(** C2 as stated fails: the record of a numpy build is classified as a
    Python package. *)
Lemma numpy_not_native :
  is_python_package
    {| name := "numpy"; version := "1.26.4"; environment := "default";
       platform := "linux-64";
       url := "https://conda.anaconda.org/conda-forge/linux-64/numpy-1.26.4-py39h474f0d3_0.conda";
       ecosystem := "conda" |} = true.
Proof. by vm_compute. Qed.

(** C3, as amended.  For every locator that [urlparse] accepts and whose
    cleaned file name is not empty and does not begin with a hyphen, the
    name that [extract_package_info] returns is not empty. *)
Theorem name_nonempty (conda_url filename : string) :
  cleaned_filename conda_url = Ok filename →
  filename ≠ "" →
  startswith "-" filename = false →
  ∃ n v, extract_package_info conda_url = Ok (n, v) ∧ n ≠ "".
Proof.
  intros Hc Hf Hh. unfold extract_package_info. rewrite Hc.
  exists (parse_filename filename).1, (parse_filename filename).2. split.
  - cbn. by destruct (parse_filename filename).
  - by apply parse_filename_name_nonempty.
Qed.

Lemma name_nonempty_witness :
  cleaned_filename "https://host/path/foo-bar-1.1.0-py39hf88036b_3.conda"
    = Ok "foo-bar-1.1.0-py39hf88036b_3" ∧
  "foo-bar-1.1.0-py39hf88036b_3" ≠ "" ∧
  startswith "-" "foo-bar-1.1.0-py39hf88036b_3" = false ∧
  ∃ n v, extract_package_info "https://host/path/foo-bar-1.1.0-py39hf88036b_3.conda"
         = Ok (n, v) ∧ n ≠ "".
Proof.
  split_and!; [by vm_compute | done | done |].
  apply (name_nonempty _ "foo-bar-1.1.0-py39hf88036b_3"); [by vm_compute | done | done].
Defined.

(** C3 as stated fails: the empty locator has an empty name, and so has a
    file name made of a hyphen and a version. *)
Lemma name_empty :
  extract_package_info "" = Ok ("", "unknown") ∧
  extract_package_info "https://host/path/-1.conda" = Ok ("", "1").
Proof. split; by vm_compute. Qed.

(** C4, as amended.  When the primary pattern matches a cleaned file name,
    the name and the version returned are its two groups; the file name is
    the name, a hyphen, the version, a hyphen and a rest; the version
    matches [\d+(?:\.\d+)*(?:\w+)?] in full; and the name is the shortest
    possible one: the version is taken at the first hyphen, after a
    non-empty name, that is followed by a version and a hyphen. *)
Theorem primary_match_shortest_name (filename : string) (m : captures) :
  re_match name_version_re filename = Some m →
  parse_filename filename = (group 1 m, group 2 m) ∧
  (∃ rest, filename = group 1 m +:+ "-" +:+ group 2 m +:+ "-" +:+ rest) ∧
  group 1 m ≠ "" ∧
  re_fullmatch version_re (group 2 m) = true ∧
  ∀ n' v' rest',
    filename = n' +:+ "-" +:+ v' +:+ "-" +:+ rest' → n' ≠ "" →
    re_fullmatch version_re v' = true →
    String.length (group 1 m) ≤ String.length n'.
Proof.
  intros Hm. split_and!.
  - unfold parse_filename. by rewrite Hm.
  - apply primary_match_spec in Hm as (nm & v & body & e & -> & _ & _ & _ & _ & _ & -> & _).
    exists (body +:+ e). unfold group.
    by rewrite lookup_insert_eq, lookup_insert_ne, lookup_insert_eq.
  - apply primary_match_spec in Hm as (nm & v & body & e & _ & Hnm & _ & _ & _ & _ & -> & _).
    unfold group. by rewrite lookup_insert_ne, lookup_insert_eq.
  - apply primary_match_spec in Hm as (nm & v & body & e & _ & _ & _ & Hv & _ & _ & -> & _).
    unfold group. rewrite lookup_insert_eq. by apply fullmatch_lang.
  - intros n' v' rest' Hf Hn' Hv'. apply fullmatch_lang in Hv'; [|done].
    by eapply primary_match_shortest.
Qed.

Lemma primary_match_shortest_name_witness :
  re_match name_version_re "name-1-rest-2.0-build"
    = Some (<[2 := "1"]> (<[1 := "name"]> ∅)) ∧
  parse_filename "name-1-rest-2.0-build" = ("name", "1").
Proof.
  split; [by vm_compute|].
  exact (proj1 (primary_match_shortest_name "name-1-rest-2.0-build"
                  (<[2 := "1"]> (<[1 := "name"]> ∅)) eq_refl)).
Defined.

(** C4 as stated fails: with two hyphen-digit boundaries the name stops at
    the first one, not at the last one. *)
Lemma primary_match_first_boundary :
  parse_filename "name-1-rest-2.0-build" = ("name", "1").
Proof. by vm_compute. Qed.

(** C5, as amended.  For every document whose tagged locators are all
    accepted by [urlparse], the extraction returns one record for each
    triple of the walk, in the order of the walk: the record carries the
    locator, the environment and the platform of its triple, the name and
    the version that [extract_package_info] gives for the locator, and the
    ecosystem "conda".  The triples of the walk are exactly those of the
    entries that carry the 'conda' tag, so an entry without the tag yields
    no record. *)
Theorem one_record_per_tagged_triple (data : pixi_lock) (out : list message) :
  (∀ locator env_name platform,
     (locator, env_name, platform) ∈ walk data →
     ∃ path, urlparse_path locator = Ok path) →
  (∃ records,
     (extract_packages_from_pixi_lock data out).1 = Ok records ∧
     triple_of <$> records = walk data ∧
     length records = length (walk data) ∧
     Forall (λ pkg, extract_package_info pkg.(url) = Ok (pkg.(name), pkg.(version))
                    ∧ pkg.(ecosystem) = "conda") records) ∧
  (∀ locator env_name platform,
     (locator, env_name, platform) ∈ walk data ↔
     ∃ envs env_data platforms platform_packages package_entry,
       environments data = Some envs ∧ (env_name, env_data) ∈ envs ∧
       packages env_data = Some platforms ∧
       (platform, platform_packages) ∈ platforms ∧
       package_entry ∈ platform_packages ∧
       dict_get "conda" package_entry = Some locator).
Proof.
  intros Hok. split; [|apply elem_of_walk].
  assert (Hinfo : ∀ t, t ∈ walk data → ∃ nv, extract_package_info t.1.1 = Ok nv).
  { intros [[u e] p] Ht. destruct (Hok u e p Ht) as [path Hp].
    simpl. unfold extract_package_info, cleaned_filename. rewrite Hp. cbn. eauto. }
  exists (record_of <$> walk data). rewrite extract_packages_walk by done.
  split_and!; [done| |by rewrite length_fmap|].
  - rewrite <- list_fmap_compose. rewrite <- (list_fmap_id (walk data)) at 2.
    apply list_fmap_ext. by intros i [[u e] p] _.
  - apply Forall_fmap, Forall_forall. intros [[u e] p] Ht.
    destruct (Hinfo _ Ht) as [[n v] Hnv]. simpl in *. by rewrite Hnv.
Qed.

Lemma one_record_per_tagged_triple_witness :
  let conda_url := "https://conda.anaconda.org/conda-forge/linux-64/zlib-1.3.1-hb9d3cd8_2.conda" in
  let pypi_url := "https://files.pythonhosted.org/packages/idna-3.10-py3-none-any.whl" in
  let data :=
    {| environments :=
         Some [("default",
                {| packages := Some [("linux-64", [[("conda", conda_url)];
                                                   [("pypi", pypi_url)]])] |});
               ("docs", {| packages := None |})] |} in
  walk data = [(conda_url, "default", "linux-64")] ∧
  (extract_packages_from_pixi_lock data []).1 =
    Ok [{| name := "zlib"; version := "1.3.1"; environment := "default";
           platform := "linux-64"; url := conda_url; ecosystem := "conda" |}] ∧
  ∃ records,
    (extract_packages_from_pixi_lock data []).1 = Ok records ∧
    triple_of <$> records = walk data ∧
    length records = length (walk data) ∧
    Forall (λ pkg, extract_package_info pkg.(url) = Ok (pkg.(name), pkg.(version))
                   ∧ pkg.(ecosystem) = "conda") records.
Proof.
  intros conda_url pypi_url data. split_and!; [done|by vm_compute|].
  apply (one_record_per_tagged_triple data []).
  intros u e p Hin. apply list_elem_of_singleton in Hin as [= -> _ _].
  eexists. by vm_compute.
Defined.

(** C5 as stated fails: a tagged locator that [urlparse] rejects makes the
    extraction raise, so the tagged triples before and after it yield no
    record either. *)
Lemma tagged_triple_dropped :
  extract_packages_from_pixi_lock
    {| environments :=
         Some [("default",
                {| packages := Some [("linux-64",
                     [[("conda", "https://conda.anaconda.org/conda-forge/linux-64/zlib-1.3.1-hb9d3cd8_2.conda")];
                      [("conda", "http://[/ca-certificates-2024.8.30-hbcca054_0.conda")]])] |})] |}
    [] = (Raise ValueError, []).
Proof. by vm_compute. Qed.

(** C6.  For every document without the 'environments' key, the extraction
    returns the empty list, prints the line that says so, and does not
    raise. *)
Theorem missing_environments (data : pixi_lock) (out : list message) :
  environments data = None →
  extract_packages_from_pixi_lock data out = (Ok [], out ++ [NoEnvironmentsFound]).
Proof. intros H. unfold extract_packages_from_pixi_lock. by rewrite H. Qed.

Lemma missing_environments_witness :
  environments {| environments := None |} = None ∧
  extract_packages_from_pixi_lock {| environments := None |} []
    = (Ok [], [NoEnvironmentsFound]).
Proof.
  split; [done|]. exact (missing_environments {| environments := None |} [] eq_refl).
Defined.

(** C7.  For every locator that [urlparse] accepts and whose cleaned
    file name has no hyphen-delimited segment that begins with a digit,
    [extract_package_info] returns the whole cleaned file name as the name
    and "unknown" as the version. *)
Theorem no_digit_segment_unknown (conda_url filename : string) :
  cleaned_filename conda_url = Ok filename →
  (∀ seg, seg ∈ str_split "-" filename → starts_with_digit seg = false) →
  extract_package_info conda_url = Ok (filename, "unknown").
Proof.
  intros Hc Hno. unfold extract_package_info. rewrite Hc. cbn.
  by rewrite parse_filename_unknown.
Qed.

Lemma no_digit_segment_unknown_witness :
  cleaned_filename "https://host/path/weirdname.conda" = Ok "weirdname" ∧
  str_split "-" "weirdname" = ["weirdname"] ∧
  extract_package_info "https://host/path/weirdname.conda" = Ok ("weirdname", "unknown").
Proof.
  split_and!; [by vm_compute..|].
  apply (no_digit_segment_unknown "https://host/path/weirdname.conda" "weirdname").
  - by vm_compute.
  - intros seg Hin. change (str_split "-" "weirdname") with ["weirdname"] in Hin.
    by apply list_elem_of_singleton in Hin as ->.
Defined.

(** C7 as stated fails: the last segment of this locator, without its
    extension, is "weirdname", with no segment that begins with a digit,
    but [urlparse] rejects the locator and nothing is returned. *)
Lemma rejected_locator_not_parsed :
  re_sub_empty extension_re (after_last "/" "http://[/weirdname.conda") = "weirdname" ∧
  str_split "-" "weirdname" = ["weirdname"] ∧
  starts_with_digit "weirdname" = false ∧
  cleaned_filename "http://[/weirdname.conda" = Raise ValueError ∧
  extract_package_info "http://[/weirdname.conda" = Raise ValueError.
Proof. split_and!; by vm_compute. Qed.

(** C9.  In the manifest of [create_osv_lockfile], the value under a key
    is built from the last record of the list with that key: it has the
    name, the version, the locator, the environment and the platform of
    that record, and the ecosystem "conda"; a key that no record has is
    absent.  The key of a record is its name, "@" and its version, and the
    count returned is the size of the map, at most the [total_packages] of
    the metadata.  Two records with the same name and version leave one
    entry, with the environment, the platform and the locator of the
    second, and the count is then smaller than [total_packages]. *)
Theorem osv_last_record_wins :
  (∀ (pkgs : list package) (k : string),
     Osv.packages (create_osv_lockfile pkgs).1 !! k
     = (λ pkg, {| Osv.name := pkg.(name); Osv.version := pkg.(version);
                  Osv.resolved := pkg.(url); Osv.ecosystem := "conda";
                  Osv.environment := pkg.(environment);
                  Osv.platform := pkg.(platform) |})
       <$> last (filter (λ pkg, pkg.(name) +:+ "@" +:+ pkg.(version) = k) pkgs)) ∧
  (∀ pkgs : list package,
     (create_osv_lockfile pkgs).2 = size (Osv.packages (create_osv_lockfile pkgs).1) ∧
     Osv.total_packages (Osv.meta (create_osv_lockfile pkgs).1) = length pkgs ∧
     (create_osv_lockfile pkgs).2 ≤ length pkgs) ∧
  (∀ (n v e1 p1 u1 e2 p2 u2 : string),
     let first := {| name := n; version := v; environment := e1; platform := p1;
                     url := u1; ecosystem := "conda" |} in
     let second := {| name := n; version := v; environment := e2; platform := p2;
                      url := u2; ecosystem := "conda" |} in
     Osv.packages (create_osv_lockfile [first; second]).1
       = {[ n +:+ "@" +:+ v :=
              {| Osv.name := n; Osv.version := v; Osv.resolved := u2;
                 Osv.ecosystem := "conda"; Osv.environment := e2;
                 Osv.platform := p2 |} ]} ∧
     (create_osv_lockfile [first; second]).2 = 1 ∧
     Osv.total_packages (Osv.meta (create_osv_lockfile [first; second]).1) = 2).
Proof.
  split_and!.
  - intros pkgs k. by rewrite osv_packages_lookup.
  - intros pkgs. split_and!; [done..|apply osv_count_le].
  - intros n v e1 p1 u1 e2 p2 u2 first second. cbn.
    unfold pkg_key. cbn. rewrite insert_insert_eq, insert_empty.
    split_and!; [done| |done]. by rewrite map_size_singleton.
Qed.

(** C10.  In the manifest of [create_package_json_style], both maps hold,
    under a name, the last record of that name whose version is not
    "unknown", and nothing under a name that has no such record; no value
    carries the version "unknown"; the count returned is the number of
    distinct names among the records with a known version. *)
Theorem npm_omits_unknown_versions (pkgs : list package) :
  let lock := (create_package_json_style pkgs).1 in
  (∀ n, lock.(Npm.dependencies) !! n
        = npm_dependency <$> last (filter (known_named n) pkgs)) ∧
  (∀ n, lock.(Npm.root_dependencies) !! n
        = version <$> last (filter (known_named n) pkgs)) ∧
  map_Forall (λ _ d, d.(Npm.version) ≠ "unknown") (lock.(Npm.dependencies)) ∧
  map_Forall (λ _ v, v ≠ "unknown") (lock.(Npm.root_dependencies)) ∧
  (create_package_json_style pkgs).2
  = size (list_to_set (name <$> filter known_version pkgs) : gset string).
Proof.
  intros lock. destruct (npm_lookups pkgs) as (H1 & H2 & H3). fold lock in H1, H2, H3.
  assert (Hlast : ∀ n p, last (filter (known_named n) pkgs) = Some p → known_named n p).
  { intros n p Hp. apply last_Some_elem_of in Hp.
    by apply list_elem_of_filter in Hp as [? _]. }
  split_and!; [done|done| | |].
  - intros n d Hd. rewrite H1 in Hd.
    destruct (last _) as [p|] eqn:Hp; [|done]. injection Hd as <-.
    by destruct (Hlast _ _ Hp).
  - intros n v Hv. rewrite H2 in Hv.
    destruct (last _) as [p|] eqn:Hp; [|done]. injection Hv as <-.
    by destruct (Hlast _ _ Hp).
  - rewrite <- H3. by rewrite size_dom.
Qed.

(** * More of the program *)

(** ** Joining and splitting *)

Lemma has_char_cons (c a : ascii) (s : string) :
  has_char c (String a s) = bool_decide (a = c) || has_char c s.
Proof. unfold has_char. simpl. by rewrite negb_andb, negb_involutive. Qed.

Lemma has_char_app (c : ascii) (s t : string) :
  has_char c (s +:+ t) = has_char c s || has_char c t.
Proof. unfold has_char. by rewrite str_all_app, negb_andb. Qed.

Lemma split_no_sep (c : ascii) (s : string) :
  has_char c s = false → str_split c s = [s].
Proof.
  induction s as [|a s IH]; [done|]. rewrite has_char_cons.
  intros [Ha Hs]%orb_false_elim. simpl. rewrite Ha, IH; done.
Qed.

Lemma split_parts_no_sep (c : ascii) (s seg : string) :
  seg ∈ str_split c s → has_char c seg = false.
Proof.
  revert seg; induction s as [|a s IH]; intros seg; simpl.
  - by intros ->%list_elem_of_singleton.
  - case_bool_decide as Ha.
    + intros [->|Hin]%elem_of_cons; [done|auto].
    + destruct (str_split c s) as [|p ps] eqn:Hs.
      * intros ->%list_elem_of_singleton. rewrite has_char_cons.
        by rewrite bool_decide_false.
      * intros [->|Hin]%elem_of_cons.
        -- rewrite has_char_cons, bool_decide_false by done. apply IH. by left.
        -- apply IH. by right.
Qed.

Lemma join_cons (sep x : string) (l : list string) :
  l ≠ [] → str_join sep (x :: l) = x +:+ sep +:+ str_join sep l.
Proof. by destruct l. Qed.

Lemma join_app (sep : string) (l1 l2 : list string) :
  l1 ≠ [] → l2 ≠ [] →
  str_join sep (l1 ++ l2) = str_join sep l1 +:+ sep +:+ str_join sep l2.
Proof.
  intros H1 H2. induction l1 as [|x l1 IH]; [done|].
  destruct l1 as [|y l1].
  - simpl app. by rewrite join_cons.
  - change ((x :: y :: l1) ++ l2) with (x :: (y :: l1) ++ l2).
    rewrite join_cons by done. rewrite IH by done.
    rewrite (join_cons sep x (y :: l1)) by done. by rewrite !app_assoc_str.
Qed.

Lemma join_split (c : ascii) (s : string) :
  str_join (String c "") (str_split c s) = s.
Proof.
  induction s as [|a s IH]; [done|]. simpl.
  destruct (str_split c s) as [|p ps] eqn:Hs.
  { by destruct s; simpl in Hs; [|case_bool_decide; [|destruct (str_split c s)]]. }
  case_bool_decide as Ha.
  - subst a. rewrite join_cons by done. by rewrite IH.
  - destruct ps as [|q ps]; simpl in *; by rewrite <- IH.
Qed.

(** Two strings cut at a separator that their first parts do not hold
    are cut at the same place. *)
Lemma app_sep_inj (c : ascii) (a b x y : string) :
  has_char c a = false → has_char c b = false →
  a +:+ String c x = b +:+ String c y → a = b ∧ x = y.
Proof.
  revert b; induction a as [|a0 a IH]; intros [|b0 b]; norm_app;
    rewrite ?has_char_cons; intros Ha Hb Heq.
  - by injection Heq as ->.
  - injection Heq as <- _. by rewrite bool_decide_true in Hb.
  - injection Heq as -> _. by rewrite bool_decide_true in Ha.
  - injection Heq as -> Heq.
    apply orb_false_elim in Ha as [_ Ha]. apply orb_false_elim in Hb as [_ Hb].
    by destruct (IH b Ha Hb Heq) as [-> ->].
Qed.

Lemma version_no_hyphen (v : string) : lang version_re v → has_char "-" v = false.
Proof.
  intros H. unfold has_char. apply negb_false_iff.
  apply (lang_classes _ _ _ H).
  repeat split; intros a Ha; destruct (bool_decide_reflect (a = "-"%char)) as [->|]; done.
Qed.

(** ** The primary pattern matches what has its shape *)

Lemma primary_match_complete (n v b : string) :
  n ≠ "" → str_all not_newline n = true → lang version_re v →
  str_all not_newline b = true →
  is_Some (re_match name_version_re (n +:+ "-" +:+ v +:+ "-" +:+ b)).
Proof.
  intros Hn Hnn Hv Hb. destruct n as [|a n]; [done|].
  simpl in Hnn. apply andb_prop in Hnn as [Ha Hnn].
  unfold re_match. change name_version_re with (Bol · Group 1 (LazyPlus Dot) · tail_re).
  rewrite 2!exec_cat. set (f := String a n +:+ _). set (sl := String.length f).
  cbn [exec]. rewrite decide_True by reflexivity.
  subst f. norm_app. cbn [exec Dot].
  change (negb (bool_decide (a = newline))) with (not_newline a). rewrite Ha.
  set (K := λ (s' : string) (c' : captures), exec sl tail_re _ s' _).
  destruct (tail_complete sl (λ _ c, Some c) v b ""
              (<[1 := str_take (String.length (String a (n +:+ "-" +:+ v +:+ "-" +:+ b))
                                - String.length ("-" +:+ v +:+ "-" +:+ b))
                               (String a (n +:+ "-" +:+ v +:+ "-" +:+ b))]> ∅)
              (<[2 := v]> (<[1 := str_take (String.length (String a (n +:+ "-" +:+ v +:+ "-" +:+ b))
                                - String.length ("-" +:+ v +:+ "-" +:+ b))
                               (String a (n +:+ "-" +:+ v +:+ "-" +:+ b))]> ∅)))
    as [x Hx]; [done|done|by left|done|].
  rewrite app_nil_r_str in Hx.
  apply (lazy_complete Dot (exec sl Dot) (exec_complete sl Dot I) K n
           ("-" +:+ v +:+ "-" +:+ b) ∅ x); [by apply lang_star_dots|exact Hx|done].
Qed.

Lemma app_prefix_split (a b s t : string) :
  a +:+ s = b +:+ t → String.length a ≤ String.length b →
  ∃ x, b = a +:+ x ∧ s = x +:+ t.
Proof.
  revert b; induction a as [|a0 a IH]; intros b Heq Hlen; norm_app.
  - by exists b.
  - destruct b as [|b0 b]; [simpl in Hlen; lia|]. norm_app.
    injection Heq as -> Heq. simpl in Hlen.
    destruct (IH b Heq ltac:(lia)) as (x & -> & ->). by exists x.
Qed.

(** The segments around the version of a primary match: there is one
    before it and one after it. *)
Lemma primary_match_boundary (f : string) (m : captures) :
  re_match name_version_re f = Some m →
  ∃ l1 l2, str_split "-" f = l1 ++ group 2 m :: l2 ∧ l1 ≠ [] ∧ l2 ≠ [] ∧
           starts_with_digit (group 2 m) = true.
Proof.
  intros (nm & v & body & e & -> & _ & _ & Hv & _ & _ & -> & _)%primary_match_spec.
  unfold group. rewrite lookup_insert_eq. simpl.
  exists (str_split "-" nm), (str_split "-" (body +:+ e)).
  change ("-" +:+ v +:+ "-" +:+ body +:+ e) with (String "-" (v +:+ String "-" (body +:+ e))).
  rewrite !split_app_sep, (split_no_sep "-" v) by by apply version_no_hyphen.
  split_and!; [done| | |].
  - by destruct nm as [|a nm]; simpl; [|case_bool_decide; [|destruct (str_split _ nm)]].
  - by destruct (body +:+ e) as [|a s]; simpl; [|case_bool_decide; [|destruct (str_split _ s)]].
  - by apply version_starts_with_digit in Hv as (d & v' & -> & Hd).
Qed.

Lemma split_not_nil (c : ascii) (s : string) : str_split c s ≠ [].
Proof. by destruct s as [|a s]; simpl; [|case_bool_decide; [|destruct (str_split _ s)]]. Qed.

(** A name, a version and a build joined by hyphens are parsed back into
    the name and the version, when no segment of the name after its first
    one begins with a digit. *)
Lemma parse_name_version_build (n v b : string) :
  n ≠ "" → str_all not_newline n = true →
  (∀ seg, seg ∈ tail (str_split "-" n) → starts_with_digit seg = false) →
  lang version_re v → str_all not_newline b = true →
  parse_filename (n +:+ "-" +:+ v +:+ "-" +:+ b) = (n, v).
Proof.
  intros Hn Hnn Hseg Hv Hb.
  destruct (primary_match_complete n v b) as [m Hm]; [done..|].
  unfold parse_filename. rewrite Hm.
  pose proof (primary_match_shortest _ m n v b Hm eq_refl Hn Hv) as Hlen.
  apply primary_match_spec in Hm
    as (nm & v0 & body & e & Hf & Hnm & _ & Hv0 & _ & _ & -> & _).
  unfold group in *. rewrite lookup_insert_eq. rewrite lookup_insert_ne in * by done.
  rewrite lookup_insert_eq in *. simpl in *.
  symmetry in Hf. destruct (app_prefix_split _ _ _ _ Hf Hlen) as (x & -> & Hx).
  destruct x as [|x0 x]; norm_app.
  - rewrite app_nil_r_str. f_equal.
    change ("-" +:+ ?s) with (String "-" s) in Hx. injection Hx as Hx.
    by destruct (app_sep_inj "-" v0 v _ _ (version_no_hyphen _ Hv0)
                   (version_no_hyphen _ Hv) Hx).
  - exfalso. change ("-" +:+ ?s) with (String "-" s) in Hx. injection Hx as <- Hx.
    apply version_starts_with_digit in Hv0 as (d & v' & -> & Hd). norm_app.
    destruct x as [|x1 x]; norm_app.
    + injection Hx as -> _. done.
    + injection Hx as <- Hx.
      change (nm +:+ String "-" (String d x)) with (nm +:+ String "-" (String d x)) in Hseg.
      rewrite split_app_sep in Hseg.
      destruct (split_cons_ne "-" d x (is_digit_not_hyphen d Hd)) as (p & ps & _ & Hs).
      rewrite Hs in Hseg.
      destruct (str_split "-" nm) as [|p0 ps0] eqn:Hnm0; [by apply split_not_nil in Hnm0|].
      specialize (Hseg (String d p)). simpl in Hseg.
      rewrite Hseg in Hd; [done|]. apply elem_of_app. right. by left.
Qed.

(** A name and a version joined by a hyphen, with nothing after the
    version, are parsed back by the fallback scan. *)
Lemma parse_name_version (n v : string) :
  (∀ seg, seg ∈ tail (str_split "-" n) → starts_with_digit seg = false) →
  starts_with_digit v = true → has_char "-" v = false →
  parse_filename (n +:+ "-" +:+ v) = (n, v).
Proof.
  intros Hseg Hd Hv. unfold parse_filename.
  assert (Hsplit : str_split "-" (n +:+ "-" +:+ v) = str_split "-" n ++ [v]).
  { change ("-" +:+ v) with (String "-" v). by rewrite split_app_sep, (split_no_sep "-" v). }
  destruct (re_match name_version_re _) as [m|] eqn:Hm.
  - exfalso. apply primary_match_boundary in Hm as (l1 & l2 & Hs & Hl1 & Hl2 & Hdm).
    rewrite Hsplit in Hs.
    destruct (exists_last Hl2) as (l2' & z & ->).
    change (l1 ++ group 2 m :: l2' ++ [z]) with (l1 ++ (group 2 m :: l2') ++ [z]) in Hs.
    rewrite app_assoc in Hs. apply app_inj_tail in Hs as [Hs _].
    destruct l1 as [|p l1]; [done|]. rewrite Hs in Hseg. simpl in Hseg.
    rewrite Hseg in Hdm; [done|]. apply elem_of_app. right. by left.
  - rewrite Hsplit, length_app. simpl.
    rewrite bool_decide_true.
    2:{ pose proof (split_not_nil "-" n). destruct (str_split "-" n); [done|simpl; lia]. }
    replace (length (str_split "-" n) + 1 - 1) with (length (str_split "-" n)) by lia.
    destruct (length (str_split "-" n)) as [|i] eqn:Hlen.
    { pose proof (split_not_nil "-" n). by destruct (str_split "-" n). }
    cbn [version_scan]. rewrite <- Hlen.
    rewrite lookup_app_r, Nat.sub_diag by done. simpl.
    rewrite bool_decide_true by by apply leading_digits_spec.
    rewrite take_app_length. by rewrite (join_split "-" n).
Qed.

(** ** What [parse_filename] returns *)

Lemma parse_filename_shape (f : string) :
  (parse_filename f).2 ≠ "" ∧
  has_char "-" (parse_filename f).2 = false ∧
  (parse_filename f = (f, "unknown") ∨
   starts_with_digit (parse_filename f).2 = true ∧
   ∃ rest, f = (parse_filename f).1 +:+ "-" +:+ (parse_filename f).2 +:+ rest ∧
           (rest = "" ∨ startswith "-" rest = true)).
Proof.
  unfold parse_filename.
  destruct (re_match name_version_re f) as [m|] eqn:Hm.
  - apply primary_match_spec in Hm
      as (nm & v & body & e & -> & _ & _ & Hv & _ & _ & -> & _).
    unfold group. rewrite lookup_insert_eq, lookup_insert_ne, lookup_insert_eq by done.
    simpl. pose proof (version_no_hyphen _ Hv) as Hh.
    apply version_starts_with_digit in Hv as (d & v' & -> & Hd).
    split_and!; [done|done|]. right. split; [done|].
    exists ("-" +:+ body +:+ e). split; [done|by right].
  - set (parts := str_split "-" f).
    destruct (if bool_decide (2 ≤ length parts) then _ else None) as [[n v]|] eqn:Hs;
      [|by split_and!; [..|left]].
    case_bool_decide as Hlen; [|done].
    apply version_scan_spec in Hs as (j & [Hj1 Hj2] & -> & Hv & Hd). simpl.
    destruct (parts !! j) as [v'|] eqn:Hl; simpl in Hv; subst v; [|done].
    assert (Hin : v' ∈ parts) by by eapply list_elem_of_lookup_2.
    split_and!; [by destruct v'|by eapply split_parts_no_sep|]. right. split; [done|].
    assert (Hf : f = str_join "-" (take j parts ++ v' :: drop (S j) parts)).
    { rewrite take_drop_middle by done. symmetry. apply (join_split "-"). }
    rewrite join_app in Hf; [|destruct j; [lia|by destruct parts]|done].
    destruct (drop (S j) parts) as [|q qs] eqn:Hdrop.
    + exists "". rewrite app_nil_r_str. split; [done|by left].
    + rewrite join_cons in Hf by done.
      exists ("-" +:+ str_join "-" (q :: qs)). split; [done|by right].
Qed.

(** ** The archive extension *)

Lemma lang_lit (c : ascii) (w : string) : lang (Lit c) w → w = String c "".
Proof.
  inversion 1 as [|? a Ha| | | | | | | | |]; subst.
  by apply bool_decide_eq_true in Ha as ->.
Qed.

(** The extension pattern matches a dot, one of the two extensions, and
    the end of the subject. *)
Lemma extension_match (sl : nat) {X} (k : string → captures → option X)
    (s : string) (c : captures) :
  is_Some (exec sl extension_re k s c) →
  ∃ ext e, s = "." +:+ ext +:+ e ∧ (ext = "conda" ∨ ext = "tar.bz2") ∧ line_end e.
Proof.
  unfold extension_re. rewrite !exec_cat. intros [x Hx].
  destruct s as [|a s]; [done|]. rewrite exec_lit in Hx.
  case_bool_decide; [subst a|done]. rewrite exec_group in Hx.
  apply exec_sound in Hx as (w & e & -> & Hw & Hk); [|done].
  rewrite exec_eol in Hk. destruct (decide (line_end e)) as [He|]; [|done].
  exists w, e. split_and!; [done| |done].
  inversion Hw as [| | |? ? ? Hl|? ? ? Hr| | | | | |]; subst.
  - left. cbn [Lits] in Hl.
    repeat match goal with
    | H : lang (_ · _) _ |- _ => inversion H; subst; clear H
    | H : lang (Lit _) _ |- _ => apply lang_lit in H as ->
    end. done.
  - right. cbn [Lits] in Hr.
    repeat match goal with
    | H : lang (_ · _) _ |- _ => inversion H; subst; clear H
    | H : lang (Lit _) _ |- _ => apply lang_lit in H as ->
    end. done.
Qed.

Lemma no_extension_inside (a : ascii) (stem ext ext' e : string) :
  (ext = "conda" ∨ ext = "tar.bz2") → (ext' = "conda" ∨ ext' = "tar.bz2") → line_end e →
  String a stem +:+ "." +:+ ext ≠ "." +:+ ext' +:+ e.
Proof.
  intros [-> | ->] [-> | ->] [-> | ->]; norm_app; intros [= _ H]; revert H;
  repeat (destruct stem as [|? stem]; norm_app; [done|intros [= _ H]; revert H]);
  by destruct stem.
Qed.

Lemma sub_scan_strip (sl : nat) (stem ext : string) :
  (ext = "conda" ∨ ext = "tar.bz2") →
  sub_scan sl extension_re 0 (stem +:+ "." +:+ ext) = stem.
Proof.
  intros Hext. induction stem as [|a stem IH]; norm_app.
  - by destruct Hext as [-> | ->].
  - change (String a (stem +:+ String "." ext)) with (String a stem +:+ "." +:+ ext).
    norm_app. cbn [sub_scan].
    match goal with
    | |- context [exec sl extension_re ?k ?s ∅] =>
        destruct (exec sl extension_re k s ∅) as [n|] eqn:Hx
    end.
    + exfalso. destruct (extension_match sl _ _ ∅ (mk_is_Some _ _ Hx))
        as (ext' & e & Heq & Hext' & He).
      by eapply (no_extension_inside a stem ext ext' e).
    + by rewrite IH.
Qed.

Lemma sub_scan_unchanged (sl : nat) (f : string) :
  endswith ".conda" f = false → endswith ".tar.bz2" f = false →
  has_char newline f = false →
  sub_scan sl extension_re 0 f = f.
Proof.
  induction f as [|a f IH]; [done|].
  cbn [endswith]. intros [Hc1 Hc2]%orb_false_elim [Ht1 Ht2]%orb_false_elim Hnl.
  pose proof Hnl as Hn. rewrite has_char_cons in Hn. apply orb_false_elim in Hn as [_ Hn].
  cbn [sub_scan].
  match goal with
  | |- context [exec sl extension_re ?k ?s ∅] =>
      destruct (exec sl extension_re k s ∅) as [n|] eqn:Hx
  end; [exfalso|by rewrite IH].
  destruct (extension_match sl _ _ ∅ (mk_is_Some _ _ Hx)) as (ext & e & Heq & Hext & He).
  rewrite Heq in Hnl, Hc1, Ht1.
  destruct He as [-> | ->].
  - rewrite app_nil_r_str in *.
    destruct Hext as [-> | ->]; [by rewrite bool_decide_true in Hc1
                                |by rewrite bool_decide_true in Ht1].
  - by destruct Hext as [-> | ->]; vm_compute in Hnl.
Qed.

(** ** The characters that [urlparse] keeps *)

Lemma str_all_span (P p : ascii → bool) (s : string) :
  str_all P s = true →
  str_all P (str_span p s).1 = true ∧ str_all P (str_span p s).2 = true.
Proof.
  induction s as [|a s IH]; [done|]. simpl. intros [Ha Hs]%andb_prop.
  destruct (p a); [|by simpl; rewrite Ha, Hs].
  destruct (str_span p s) as [x y]. simpl in *.
  destruct (IH Hs) as [-> ->]. by rewrite Ha.
Qed.

Lemma str_all_filter (P p : ascii → bool) (s : string) :
  str_all P s = true → str_all P (str_filter p s) = true.
Proof.
  induction s as [|a s IH]; [done|]. simpl. intros [Ha Hs]%andb_prop.
  destruct (p a); simpl; rewrite ?Ha; auto.
Qed.

Lemma str_all_partition (P : ascii → bool) (c : ascii) (s x y : string) :
  str_partition c s = Some (x, y) → str_all P s = true →
  str_all P x = true ∧ str_all P y = true.
Proof.
  revert x; induction s as [|a s IH]; intros x; [done|]. simpl.
  case_bool_decide.
  - intros [= <- <-] [_ Hs]%andb_prop. done.
  - destruct (str_partition c s) as [[x' y']|]; [|done]. simpl.
    intros [= <- <-] [Ha Hs]%andb_prop. simpl.
    destruct (IH x' eq_refl Hs) as [-> ->]. by rewrite Ha.
Qed.

Lemma str_all_drop (P : ascii → bool) (n : nat) (s : string) :
  str_all P s = true → str_all P (str_drop n s) = true.
Proof.
  revert s; induction n as [|n IH]; intros [|a s]; simpl; try done.
  intros [_ Hs]%andb_prop. auto.
Qed.

Lemma has_char_all (c : ascii) (s : string) :
  has_char c s = false ↔ str_all (λ a, negb (bool_decide (a = c))) s = true.
Proof. unfold has_char. by rewrite negb_false_iff. Qed.

Lemma str_all_impl (P Q : ascii → bool) (s : string) :
  (∀ a, P a = true → Q a = true) → str_all P s = true → str_all Q s = true.
Proof.
  intros HPQ. induction s as [|a s IH]; [done|]. simpl.
  intros [Ha Hs]%andb_prop. by rewrite (HPQ a Ha), IH.
Qed.

(** ** [_checknetloc] on code points up to 255 *)

Lemma span_fst_all (p : ascii → bool) (s : string) :
  str_all p (str_span p s).1 = true.
Proof.
  induction s as [|a s IH]; [done|]. simpl. destruct (p a) eqn:Ha; [|done].
  destruct (str_span p s) as [x y]. simpl in *. by rewrite Ha.
Qed.

Definition netloc_delimiters : list ascii :=
  ["/"%char; "?"%char; "#"%char; "@"%char; ":"%char].

(** The normal form of a character holds a delimiter only when the
    character is that delimiter. *)
Lemma nfkc_delimiter (c a : ascii) :
  a ∈ netloc_delimiters → code a ∈ nfkc c → c = a.
Proof.
  intros Ha. unfold netloc_delimiters in Ha.
  repeat (apply elem_of_cons in Ha as [->|Ha]); [..|by apply elem_of_nil in Ha];
    destruct c as [[] [] [] [] [] [] [] []];
    apply (bool_decide_unpack _); by vm_compute.
Qed.

Lemma normalize_delimiter (a : ascii) (n : string) :
  a ∈ netloc_delimiters → code a ∈ normalize_nfkc n → has_char a n = true.
Proof.
  intros Ha. induction n as [|c n IH]; simpl.
  - by intros ?%elem_of_nil.
  - rewrite has_char_cons. intros [H|H]%elem_of_app.
    + apply nfkc_delimiter in H as ->; [|done]. by rewrite bool_decide_true.
    + by rewrite IH, orb_true_r.
Qed.

(** [_checknetloc] accepts every network location of code points up to
    255: [urlsplit] cuts the location at the first slash, and no other
    character of this range has a slash in its normal form. *)
Lemma checknetloc_ok (netloc : string) :
  has_char "/" netloc = false → checknetloc netloc = Ok ().
Proof.
  intros Hslash. unfold checknetloc.
  destruct (_ || _); [done|]. cbv zeta.
  set (keep := λ c : ascii, negb _). set (n := str_filter keep netloc).
  destruct (bool_decide (code_points n = normalize_nfkc n)); [done|].
  assert (Hnone : ∀ a, a ∈ netloc_delimiters →
                       bool_decide (code a ∈ normalize_nfkc n) = false).
  { intros a Ha. apply bool_decide_eq_false. intros Hin.
    apply normalize_delimiter in Hin; [|done].
    assert (Hn : has_char a n = false); [|congruence].
    unfold netloc_delimiters in Ha.
    apply elem_of_cons in Ha as [->|Ha].
    { apply has_char_all, str_all_filter. by apply has_char_all. }
    clear -Ha. apply has_char_all. subst n.
    induction netloc as [|c s IH]; [done|]. simpl.
    destruct (keep c) eqn:Hc; [|done]. simpl. rewrite IH, andb_true_r.
    apply negb_true_iff, bool_decide_eq_false. intros ->.
    repeat (apply elem_of_cons in Ha as [->|Ha]); [..|by apply elem_of_nil in Ha];
      by vm_compute in Hc. }
  cbn [existsb]. rewrite !Hnone; [done|unfold netloc_delimiters; set_solver..].
Qed.

(** On code points up to 255, [urlparse] raises only on a locator that
    holds a square bracket. *)
Lemma urlparse_path_no_bracket (url : string) :
  has_char "[" url = false → has_char "]" url = false →
  ∃ path, urlparse_path url = Ok path.
Proof.
  intros Hl Hr. unfold urlparse_path.
  set (keep := λ c : ascii, negb (_ || _ || bool_decide (c = newline))).
  set (url2 := str_filter keep _).
  assert (H2 : ∀ c, has_char c url = false → has_char c url2 = false).
  { intros c Hc. apply has_char_all. apply str_all_filter.
    by apply str_all_span, has_char_all. }
  set (split_scheme := match str_partition ":" url2 with Some _ => _ | None => _ end).
  assert (H3 : ∀ c, has_char c url = false → has_char c split_scheme.2 = false).
  { intros c Hc. subst split_scheme.
    destruct (str_partition ":" url2) as [[[|c0 pre] rest]|] eqn:Hp; simpl; auto.
    destruct (_ && _); simpl; auto.
    apply has_char_all. eapply (str_all_partition _ ":" url2); [done|].
    by apply has_char_all, H2. }
  destruct split_scheme as [scheme url3]. simpl in H3.
  destruct (startswith "//" url3); [|by eexists].
  set (stop := λ c : ascii, negb (_ || _ || bool_decide (c = "#"%char))).
  assert (H4 : ∀ c, has_char c url = false →
                    has_char c (str_span stop (str_drop 2 url3)).1 = false).
  { intros c Hc. apply has_char_all.
    by apply str_all_span, str_all_drop, has_char_all, H3. }
  pose proof (span_fst_all stop (str_drop 2 url3)) as Hstop.
  destruct (str_span stop (str_drop 2 url3)) as [netloc url4]. simpl in H4, Hstop.
  rewrite (H4 "["%char Hl), (H4 "]"%char Hr). cbn [andb orb negb mbind result_bind].
  rewrite checknetloc_ok; [by eexists|].
  apply has_char_all. revert Hstop. apply str_all_impl. intros a. unfold stop.
  by destruct (bool_decide (a = "/"%char)).
Qed.

(** ** The path and the file name of an ordinary locator *)

(** The characters that [urlparse] neither removes nor reads as the start
    of a query, a fragment, parameters or an address literal. *)
Definition url_plain (c : ascii) : bool :=
  negb (bool_decide (c = "009"%char) || bool_decide (c = "013"%char)
        || bool_decide (c = newline) || bool_decide (c = "?"%char)
        || bool_decide (c = "#"%char) || bool_decide (c = ";"%char)
        || bool_decide (c = "["%char) || bool_decide (c = "]"%char)).

Lemma str_filter_id (p : ascii → bool) (s : string) :
  str_all p s = true → str_filter p s = s.
Proof.
  induction s as [|a s IH]; [done|]. simpl. intros [-> Hs]%andb_prop. by rewrite IH.
Qed.

Lemma partition_app (c : ascii) (a b : string) :
  has_char c a = false → str_partition c (a +:+ String c b) = Some (a, b).
Proof.
  induction a as [|a0 a IH]; norm_app; simpl.
  - by rewrite bool_decide_true.
  - rewrite has_char_cons. intros [Ha0 Ha]%orb_false_elim.
    rewrite Ha0, IH by done. done.
Qed.

Lemma partition_none (c : ascii) (s : string) :
  has_char c s = false → str_partition c s = None.
Proof.
  induction s as [|a s IH]; [done|]. rewrite has_char_cons.
  intros [Ha Hs]%orb_false_elim. simpl. by rewrite Ha, IH.
Qed.

Lemma before_first_none (c : ascii) (s : string) :
  has_char c s = false → before_first c s = s.
Proof. intros H. unfold before_first. by rewrite partition_none. Qed.

Lemma span_until (p : ascii → bool) (c : ascii) (s t : string) :
  p c = false →
  ∃ a b, s = a +:+ b ∧ str_span p (s +:+ String c t) = (a, b +:+ String c t).
Proof.
  intros Hc. induction s as [|a0 s IH]; norm_app; simpl.
  - exists "", "". by rewrite Hc.
  - destruct (p a0).
    + destruct IH as (a & b & -> & ->). by exists (String a0 a), b.
    + by exists "", (String a0 s).
Qed.

Lemma plain_has_char (c : ascii) (s : string) :
  url_plain c = false → str_all url_plain s = true → has_char c s = false.
Proof.
  intros Hc Hs. apply has_char_all. revert Hs. apply str_all_impl.
  intros a Ha. destruct (bool_decide_reflect (a = c)) as [->|]; [congruence|done].
Qed.

Lemma path_name_last (dir file : string) :
  has_char "/" file = false → file ≠ "" → file ≠ "." →
  path_name (dir +:+ "/" +:+ file) = file.
Proof.
  intros Hs He Hd. unfold path_name.
  change ("/" +:+ file) with (String "/" file).
  rewrite split_app_sep, (split_no_sep "/" file) by done.
  rewrite filter_app, (filter_cons_True _ file), filter_nil by done.
  apply last_last.
Qed.

(** The locator [scheme://location/file]: the file name that
    [extract_package_info] reads is [file]. *)
Lemma locator_file_name (c0 : ascii) (pre loc file : string) :
  is_ascii_alpha c0 = true → str_all scheme_chars (String c0 pre) = true →
  str_all url_plain loc = true → str_all url_plain file = true →
  has_char "/" file = false → file ≠ "" → file ≠ "." →
  path_name <$> urlparse_path (String c0 pre +:+ "://" +:+ loc +:+ "/" +:+ file)
  = Ok file.
Proof.
  intros Hc0 Hscheme Hloc Hfile Hslash He Hd. unfold urlparse_path.
  set (keep := λ c : ascii, negb (_ || _ || bool_decide (c = newline))).
  set (stop := λ c : ascii, negb (_ || _ || bool_decide (c = "#"%char))).
  assert (Hkeep : ∀ a, url_plain a = true → keep a = true).
  { intros a Ha. unfold keep. unfold url_plain in Ha.
    by destruct (bool_decide (a = "009"%char)), (bool_decide (a = "013"%char)),
         (bool_decide (a = newline)). }
  assert (Hsk : ∀ a, scheme_chars a = true → url_plain a = true).
  { intros a Ha. unfold url_plain.
    repeat (case_bool_decide; [subst a; by vm_compute in Ha|]). done. }
  norm_app. cbn [str_span].
  replace (between 0 32 c0) with false.
  2:{ clear -Hc0. by destruct c0 as [[] [] [] [] [] [] [] []]. }
  cbn [snd].
  change (String c0 (pre +:+ String ":" (String "/" (String "/" (loc +:+ String "/" file)))))
    with (String c0 pre +:+ String ":" ("//" +:+ loc +:+ String "/" file)).
  rewrite str_filter_id.
  2:{ rewrite !str_all_app. simpl. rewrite !str_all_app. simpl.
      rewrite (str_all_impl _ keep _ Hkeep Hloc), (str_all_impl _ keep _ Hkeep Hfile).
      assert (Hs : str_all keep (String c0 pre) = true).
      { eapply str_all_impl; [|exact Hscheme]. auto. }
      simpl in Hs. by rewrite Hs. }
  rewrite partition_app.
  2:{ apply has_char_all. eapply str_all_impl; [|exact Hscheme].
      intros a Ha. by destruct (bool_decide_reflect (a = ":"%char)) as [->|]. }
  rewrite Hc0, Hscheme. cbn [andb]. norm_app. cbn [startswith str_drop].
  rewrite (bool_decide_true ("/"%char = "/"%char)) by done. cbn [andb].
  destruct (span_until stop "/" loc file eq_refl) as (a & b & -> & Hspan).
  pose proof (span_fst_all stop ((a +:+ b) +:+ String "/" file)) as Hstop.
  rewrite Hspan in Hstop |- *. cbn [fst] in Hstop.
  rewrite str_all_app in Hloc. apply andb_prop in Hloc as [Ha Hb].
  rewrite (plain_has_char "[" a), (plain_has_char "]" a) by done.
  cbn [andb orb negb mbind result_bind].
  rewrite checknetloc_ok.
  2:{ apply has_char_all. revert Hstop. apply str_all_impl. intros c. unfold stop.
      by destruct (bool_decide (c = "/"%char)). }
  cbn [mbind result_bind fmap result_fmap].
  assert (Hpath : str_all url_plain (b +:+ String "/" file) = true).
  { rewrite str_all_app. simpl. by rewrite Hb, Hfile. }
  rewrite (before_first_none "#"), (before_first_none "?") by by apply plain_has_char.
  rewrite (plain_has_char ";" _ eq_refl Hpath), andb_false_r.
  f_equal. by apply (path_name_last b file).
Qed.

(** ** The extraction, with the locators that [urlparse] rejects *)

(** The record of a triple, or the exception of its locator. *)
Definition record_result (t : string * string * string) : result package :=
  let '(locator, env_name, platform) := t in
  '(n, v) ← extract_package_info locator;
  Ok {| name := n; version := v; environment := env_name; platform := platform;
        url := locator; ecosystem := "conda" |}.

Lemma mapM_app_result {X Y} (R : X → result Y) (l1 l2 : list X) :
  mapM R (l1 ++ l2) = a ← mapM R l1; b ← mapM R l2; Ok (a ++ b).
Proof.
  induction l1 as [|x l1 IH]; simpl.
  - by destruct (mapM R l2).
  - destruct (R x) as [y|e]; simpl; [|done]. rewrite IH.
    destruct (mapM R l1) as [a|e]; simpl; [|done]. by destruct (mapM R l2).
Qed.

Lemma mapM_raise {X Y} (R : X → result Y) (l : list X) :
  mapM R l = Raise ValueError ↔ ∃ x, x ∈ l ∧ R x = Raise ValueError.
Proof.
  induction l as [|x l IH]; simpl.
  - split; [done|]. intros (x & Hx%elem_of_nil & _). done.
  - destruct (R x) as [y|[]] eqn:Hx; simpl.
    + destruct (mapM R l) as [k|[]] eqn:Hm; simpl.
      * split; [done|]. intros (z & Hz & Hr).
        apply elem_of_cons in Hz as [->|Hz]; [congruence|].
        assert (Ok k = Raise ValueError) by (apply IH; eauto). done.
      * split; [|done]. intros _. destruct (proj1 IH eq_refl) as (z & Hz & Hr).
        exists z. split; [by right|done].
    + split; [|done]. intros _. exists x. split; [by left|done].
Qed.

Lemma for_each_mapM {X T} (R : T → result package) (G : X → list T) (xs : list X)
    (body : list package → X → Py (list package)) :
  (∀ acc x out, x ∈ xs →
     body acc x out = (rs ← mapM R (G x); Ok (acc ++ rs), out)) →
  ∀ acc out, for_each xs body acc out = (rs ← mapM R (xs ≫= G); Ok (acc ++ rs), out).
Proof.
  induction xs as [|x xs IH]; intros Hbody acc out; cbn [for_each].
  - cbn. by rewrite app_nil_r.
  - unfold mbind at 1, py_bind. rewrite Hbody by left.
    rewrite bind_cons, mapM_app_result.
    destruct (mapM R (G x)) as [rs1|e]; [|done].
    cbn [mbind result_bind]. rewrite IH by (intros; apply Hbody; by right).
    destruct (mapM R (xs ≫= G)) as [rs2|e]; [|done].
    cbn [mbind result_bind]. by rewrite app_assoc.
Qed.

Lemma extract_packages_mapM (data : pixi_lock) (out : list message) :
  extract_packages_from_pixi_lock data out =
    (mapM record_result (walk data),
     out ++ match environments data with Some _ => [] | None => [NoEnvironmentsFound] end).
Proof.
  unfold extract_packages_from_pixi_lock.
  destruct (environments data) as [envs|] eqn:Henvs.
  2:{ unfold walk. rewrite Henvs. done. }
  rewrite app_nil_r.
  rewrite (for_each_mapM record_result (λ x,
    (let '(env_name, env_data) := x in
     '(platform, platform_packages) ← default [] (packages env_data);
      package_entry ← platform_packages;
      match dict_get "conda" package_entry with
      | Some locator => [(locator, env_name, platform)]
      | None => []
      end))).
  { unfold walk. rewrite Henvs. simpl. by destruct (mapM _ _). }
  intros acc [e ed] o1 He.
  destruct (packages ed) as [plats|] eqn:Hplats; [|by simpl; rewrite app_nil_r].
  rewrite (for_each_mapM record_result (λ x,
    (let '(platform, platform_packages) := x in
      package_entry ← platform_packages;
      match dict_get "conda" package_entry with
      | Some locator => [(locator, e, platform)]
      | None => []
      end))); [done|].
  intros acc1 [p pp] o2 Hp.
  rewrite (for_each_mapM record_result (λ package_entry,
    (match dict_get "conda" package_entry with
     | Some locator => [(locator, e, p)]
     | None => []
     end))); [done|].
  intros acc2 en o3 Hen.
  destruct (dict_get "conda" en) as [u|] eqn:Hu; [|by simpl; rewrite app_nil_r].
  unfold mbind at 1, py_bind, lift. simpl.
  by destruct (extract_package_info u) as [[n v]|err].
Qed.

(** ** The requirement files *)

(** [f"{pkg['name']}=={version}"], or the bare name of a record without
    a version. *)
Definition requirement_line (pkg : package) : string :=
  if bool_decide (pkg.(version) ≠ "unknown")
  then pkg.(name) +:+ "==" +:+ pkg.(version) else pkg.(name).

Definition python_classified (pkg : package) : Prop := is_python_package pkg = true.

Global Instance python_classified_dec pkg : Decision (python_classified pkg).
Proof. unfold python_classified. apply _. Defined.

Lemma requirements_set (pkgs : list package) :
  (create_requirements_txt pkgs).1
  = list_to_set (requirement_line <$> filter python_classified pkgs).
Proof.
  simpl. induction pkgs as [|p pkgs IH] using rev_ind; [done|].
  rewrite foldl_app, filter_app. cbn [foldl]. rewrite IH.
  destruct (is_python_package p) eqn:Hp.
  - rewrite (filter_cons_True python_classified) by done.
    rewrite filter_nil, fmap_app, list_to_set_app_L. cbn.
    rewrite (right_id_L ∅ (∪)). unfold requirement_line.
    by destruct (bool_decide (p.(version) ≠ "unknown")).
  - rewrite (filter_cons_False python_classified) by (unfold python_classified; congruence).
    by rewrite filter_nil, app_nil_r.
Qed.

Lemma conda_requirements_set (pkgs : list package) :
  (create_conda_requirements pkgs).1 = list_to_set (requirement_line <$> pkgs).
Proof.
  simpl. induction pkgs as [|p pkgs IH] using rev_ind; [done|].
  rewrite foldl_app. cbn [foldl]. rewrite IH, fmap_app, list_to_set_app_L. cbn.
  rewrite (right_id_L ∅ (∪)). unfold requirement_line.
    by destruct (bool_decide (p.(version) ≠ "unknown")).
Qed.

Lemma size_list_to_set_le (l : list string) :
  size (list_to_set l : gset string) ≤ length l.
Proof.
  induction l as [|x l IH]; [by rewrite list_to_set_nil, size_empty|].
  rewrite list_to_set_cons, size_union_alt, size_singleton. cbn [length].
  assert (Hsub : list_to_set l ∖ {[x]} ⊆ (list_to_set l : gset string)).
  { apply subseteq_difference_l. done. }
  apply subseteq_size in Hsub. lia.
Qed.

(** ** The classifier *)

Lemma endswith_python_contains (s : string) :
  endswith "-python" s = true → contains "python" s = true.
Proof.
  induction s as [|a s IH]; [done|]. cbn [endswith].
  intros [H|H]%orb_prop.
  - apply bool_decide_eq_true in H. by rewrite H.
  - cbn [contains]. rewrite IH by done. by rewrite orb_true_r.
Qed.

Lemma python_substring_indicator (n : string) :
  python_substring n = true → indicator_in n = true.
Proof.
  unfold python_substring, indicator_in, python_indicators. cbn [existsb].
  by intros ->.
Qed.

(** ** The manifests, again *)

Lemma osv_packages_dom (pkgs : list package) :
  dom (Osv.packages (create_osv_lockfile pkgs).1)
  = (list_to_set (pkg_key <$> pkgs) : gset string).
Proof.
  simpl. induction pkgs as [|p pkgs IH] using rev_ind.
  { cbn. by rewrite dom_empty_L. }
  rewrite foldl_app, fmap_app, list_to_set_app_L. cbn [foldl].
  rewrite dom_insert_L, IH. cbn. rewrite (right_id_L ∅ (∪)). apply (comm_L (∪)).
Qed.

Lemma npm_root_versions (pkgs : list package) :
  Npm.root_dependencies (create_package_json_style pkgs).1
  = Npm.version <$> Npm.dependencies (create_package_json_style pkgs).1.
Proof.
  destruct (npm_lookups pkgs) as (H1 & H2 & _). apply map_eq. intros n.
  rewrite lookup_fmap, H1, H2. by destruct (last _).
Qed.

(** ** [main] on a document *)

Lemma main_document (data : pixi_lock) :
  let out := match environments data with
             | Some _ => []
             | None => [NoEnvironmentsFound]
             end in
  match mapM record_result (walk data) with
  | Raise e =>
      main (Document data)
      = {| printed := Converting :: (Extraction <$> out); written := [];
           ending := Raises e |}
  | Ok [] =>
      main (Document data)
      = {| printed := Converting :: (Extraction <$> out) ++ [NoPackagesFound];
           written := []; ending := Exits 1 |}
  | Ok pkgs =>
      ending (main (Document data)) = Returns ∧
      written (main (Document data))
      = [RequirementsTxt (create_requirements_txt pkgs).1;
         CondaRequirementsTxt (create_conda_requirements pkgs).1;
         OsvLockfileJson (create_osv_lockfile pkgs).1;
         PackageLockJson (create_package_json_style pkgs).1;
         ConversionSummaryJson
           {| source_file := "pixi.lock";
              total_packages_found := length pkgs;
              python_packages := (create_requirements_txt pkgs).2;
              conda_packages := (create_conda_requirements pkgs).2;
              summary_environments := list_to_set (environment <$> pkgs);
              summary_platforms := list_to_set (platform <$> pkgs);
              osv_files_created :=
                ["requirements.txt"; "conda-requirements.txt"; "osv-lockfile.json";
                 "package-lock.json"];
              sample := take 10 pkgs |}]
  end.
Proof.
  intros out. unfold main. rewrite (extract_packages_mapM data []).
  fold out. rewrite app_nil_l.
  by destruct (mapM record_result (walk data)) as [[|p pkgs]|e].
Qed.

Lemma record_result_raise (locator env_name platform : string) :
  record_result (locator, env_name, platform) = Raise ValueError
  ↔ urlparse_path locator = Raise ValueError.
Proof.
  unfold record_result, extract_package_info, cleaned_filename.
  destruct (urlparse_path locator) as [path|[]]; cbn; [|done].
  by destruct (parse_filename _).
Qed.

Lemma walk_raise (data : pixi_lock) :
  mapM record_result (walk data) = Raise ValueError ↔
  ∃ locator env_name platform,
    (locator, env_name, platform) ∈ walk data ∧ urlparse_path locator = Raise ValueError.
Proof.
  rewrite mapM_raise. split.
  - intros ([[u e] p] & Hin & Hr). exists u, e, p. by rewrite <- record_result_raise.
  - intros (u & e & p & Hin & Hr). exists (u, e, p). by rewrite record_result_raise.
Qed.

(** * Further properties *)

(** X1.  The substitution of line 35 cuts one trailing ".conda" or
    ".tar.bz2" off, whatever comes before it, and nothing else: a second
    extension under the first stays. *)
Theorem strip_archive_extension (stem : string) :
  re_sub_empty extension_re (stem +:+ ".conda") = stem ∧
  re_sub_empty extension_re (stem +:+ ".tar.bz2") = stem.
Proof.
  unfold re_sub_empty. split.
  - apply (sub_scan_strip _ stem "conda"). by left.
  - apply (sub_scan_strip _ stem "tar.bz2"). by right.
Qed.

(** X2.  A file name without a newline that ends in neither extension
    goes through the substitution of line 35 unchanged. *)
Theorem other_extensions_kept (filename : string) :
  endswith ".conda" filename = false →
  endswith ".tar.bz2" filename = false →
  has_char newline filename = false →
  re_sub_empty extension_re filename = filename.
Proof. intros. by apply sub_scan_unchanged. Qed.

Lemma other_extensions_kept_witness :
  endswith ".conda" "idna-3.10-py3-none-any.whl" = false ∧
  endswith ".tar.bz2" "idna-3.10-py3-none-any.whl" = false ∧
  has_char newline "idna-3.10-py3-none-any.whl" = false ∧
  re_sub_empty extension_re "idna-3.10-py3-none-any.whl" = "idna-3.10-py3-none-any.whl".
Proof.
  split_and!; [done..|].
  exact (other_extensions_kept "idna-3.10-py3-none-any.whl" eq_refl eq_refl eq_refl).
Defined.



(** X4.  A file name made of a name, a hyphen and a version, with no
    build after it, is parsed back by the scan of lines 47 to 53, when
    the version begins with a digit and holds no hyphen and no segment of
    the name after its first one begins with a digit. *)
Theorem name_version_round_trip (n v : string) :
  (∀ seg, seg ∈ tail (str_split "-" n) → starts_with_digit seg = false) →
  starts_with_digit v = true → has_char "-" v = false →
  parse_filename (n +:+ "-" +:+ v) = (n, v).
Proof. intros. by apply parse_name_version. Qed.

Lemma name_version_round_trip_witness :
  starts_with_digit "2024.8.30" = true ∧ has_char "-" "2024.8.30" = false ∧
  parse_filename "ca-certificates-2024.8.30" = ("ca-certificates", "2024.8.30").
Proof.
  split_and!; [done..|].
  apply (name_version_round_trip "ca-certificates" "2024.8.30"); [|done..].
  intros seg Hin. change (tail (str_split "-" "ca-certificates")) with ["certificates"] in Hin.
  by apply list_elem_of_singleton in Hin as ->.
Defined.

(** X5.  Whatever the file name, the version that lines 39 to 56 return
    is not empty and holds no hyphen; and either the file name comes back
    whole with the version "unknown", or the version begins with a digit
    and the file name is the name, a hyphen and the version, followed by
    nothing or by a hyphen and more. *)
Theorem version_shape (filename : string) :
  (parse_filename filename).2 ≠ "" ∧
  has_char "-" (parse_filename filename).2 = false ∧
  (parse_filename filename = (filename, "unknown") ∨
   starts_with_digit (parse_filename filename).2 = true ∧
   ∃ rest,
     filename = (parse_filename filename).1 +:+ "-" +:+ (parse_filename filename).2 +:+ rest ∧
     (rest = "" ∨ startswith "-" rest = true)).
Proof. apply parse_filename_shape. Qed.

(** X6.  On a locator of ASCII characters, [extract_package_info] raises
    only when the locator holds a square bracket: on every ASCII locator
    without one it returns a name and a version.  (Beyond ASCII,
    [_checknetloc] also rejects a network location whose NFKC form brings
    in one of the delimiters / ? # @ and the colon.) *)
Theorem no_bracket_no_exception (conda_url : string) :
  str_all is_ascii conda_url = true →
  has_char "[" conda_url = false → has_char "]" conda_url = false →
  ∃ n v, extract_package_info conda_url = Ok (n, v).
Proof.
  intros _ Hl Hr. destruct (urlparse_path_no_bracket conda_url Hl Hr) as [path Hp].
  unfold extract_package_info, cleaned_filename. rewrite Hp. cbn.
  destruct (parse_filename _) as [n v]. eauto.
Qed.

Lemma no_bracket_no_exception_witness :
  str_all is_ascii "file:///opt/channel/noarch/tzdata-2024b-hc8b5060_0.conda?x=1" = true ∧
  ∃ n v, extract_package_info "file:///opt/channel/noarch/tzdata-2024b-hc8b5060_0.conda?x=1"
         = Ok (n, v).
Proof.
  split; [done|].
  exact (no_bracket_no_exception
           "file:///opt/channel/noarch/tzdata-2024b-hc8b5060_0.conda?x=1"
           eq_refl eq_refl eq_refl).
Defined.

(** X7.  The extraction returns all the records of the tagged triples, in
    the order of the walk, or none: it raises [ValueError] exactly when
    [urlparse] rejects the locator of some tagged triple, and it prints
    its one line exactly when the 'environments' key is missing. *)
Theorem extraction_all_or_nothing (data : pixi_lock) (out : list message) :
  (extract_packages_from_pixi_lock data out).1 = mapM record_result (walk data) ∧
  ((extract_packages_from_pixi_lock data out).1 = Raise ValueError ↔
   ∃ locator env_name platform,
     (locator, env_name, platform) ∈ walk data ∧
     urlparse_path locator = Raise ValueError) ∧
  (extract_packages_from_pixi_lock data out).2
  = out ++ match environments data with
           | Some _ => []
           | None => [NoEnvironmentsFound]
           end.
Proof.
  rewrite extract_packages_mapM. cbn [fst snd]. split_and!; [done| |done].
  apply walk_raise.
Qed.

(** X8.  A line is written to requirements.txt exactly when it is the
    line of a record that passes the test of lines 107 to 111: its name,
    "==" and its version, or its bare name when the version is "unknown".
    The count returned is at most the number of these records. *)
Theorem requirements_lines (pkgs : list package) :
  (∀ l, l ∈ (create_requirements_txt pkgs).1 ↔
        ∃ pkg, pkg ∈ pkgs ∧ is_python_package pkg = true ∧ l = requirement_line pkg) ∧
  (create_requirements_txt pkgs).2 ≤ length (filter python_classified pkgs).
Proof.
  split.
  - intros l. rewrite requirements_set, elem_of_list_to_set, list_elem_of_fmap.
    split.
    + intros (pkg & -> & [Hp Hin]%list_elem_of_filter). eauto.
    + intros (pkg & Hin & Hp & ->). exists pkg. split; [done|].
      by apply list_elem_of_filter.
  - change ((create_requirements_txt pkgs).2) with (size (create_requirements_txt pkgs).1).
    rewrite requirements_set. etrans; [apply size_list_to_set_le|]. by rewrite length_fmap.
Qed.

(** X9.  A line is written to conda-requirements.txt exactly when it is
    the line of some record; the count returned is at most the number of
    records. *)
Theorem conda_requirements_lines (pkgs : list package) :
  (∀ l, l ∈ (create_conda_requirements pkgs).1 ↔
        ∃ pkg, pkg ∈ pkgs ∧ l = requirement_line pkg) ∧
  (create_conda_requirements pkgs).2 ≤ length pkgs.
Proof.
  split.
  - intros l. rewrite conda_requirements_set, elem_of_list_to_set, list_elem_of_fmap.
    split; intros (pkg & H1 & H2); eauto.
  - change ((create_conda_requirements pkgs).2) with (size (create_conda_requirements pkgs).1).
    rewrite conda_requirements_set. etrans; [apply size_list_to_set_le|]. by rewrite length_fmap.
Qed.

(** X10.  Every line of requirements.txt is a line of
    conda-requirements.txt, so the count of the first is at most the
    count of the second. *)
Theorem python_lines_among_conda_lines (pkgs : list package) :
  (create_requirements_txt pkgs).1 ⊆ (create_conda_requirements pkgs).1 ∧
  (create_requirements_txt pkgs).2 ≤ (create_conda_requirements pkgs).2.
Proof.
  assert (H : (create_requirements_txt pkgs).1 ⊆ (create_conda_requirements pkgs).1).
  { rewrite requirements_set, conda_requirements_set. intros l.
    rewrite !elem_of_list_to_set, !list_elem_of_fmap.
    intros (pkg & -> & [_ Hin]%list_elem_of_filter). eauto. }
  split; [done|]. by apply subseteq_size.
Qed.

(** X11.  The last two tests of lines 107 to 111 never decide: a name
    that ends with "-python" or holds "python" already holds the
    indicator "python".  A record is classified by the indicators, the
    "py" prefix and the "-py" infix alone. *)
Theorem classifier_redundant_tests (pkg : package) :
  is_python_package pkg
  = indicator_in (lower (pkg.(name))) || py_prefix (lower (pkg.(name)))
    || py_infix (lower (pkg.(name))).
Proof.
  unfold is_python_package. cbv zeta. set (n := lower _).
  pose proof (python_substring_indicator n) as Hsub.
  pose proof (endswith_python_contains n) as Hsuf.
  fold (python_suffix n) (python_substring n) in Hsuf.
  destruct (indicator_in n); [done|].
  destruct (python_substring n); [by discriminate (Hsub eq_refl)|].
  destruct (python_suffix n); [by discriminate (Hsuf eq_refl)|].
  by rewrite !orb_false_r.
Qed.

(** X12.  The keys of [lockfile["packages"]] are the keys [name@version]
    of the records, each record has its key in the map, and the count
    returned is the number of distinct keys. *)
Theorem osv_distinct_keys (pkgs : list package) :
  dom (Osv.packages (create_osv_lockfile pkgs).1)
  = (list_to_set (pkg_key <$> pkgs) : gset string) ∧
  (∀ pkg, pkg ∈ pkgs → is_Some (Osv.packages (create_osv_lockfile pkgs).1 !! pkg_key pkg)) ∧
  (create_osv_lockfile pkgs).2 = size (list_to_set (pkg_key <$> pkgs) : gset string).
Proof.
  split_and!.
  - apply osv_packages_dom.
  - intros pkg Hin. apply elem_of_dom. rewrite osv_packages_dom.
    apply elem_of_list_to_set, list_elem_of_fmap. eauto.
  - rewrite <- osv_packages_dom. by rewrite size_dom.
Qed.

(** X13.  When no name holds an "@", the entry kept under the key of a
    record carries the name and the version of that record: only records
    of the same name and version overwrite each other. *)
Theorem osv_entry_of_record (pkgs : list package) (pkg : package) :
  pkg ∈ pkgs →
  (∀ q, q ∈ pkgs → has_char "@" q.(name) = false) →
  ∃ e, Osv.packages (create_osv_lockfile pkgs).1 !! pkg_key pkg = Some e ∧
       e.(Osv.name) = pkg.(name) ∧ e.(Osv.version) = pkg.(version).
Proof.
  intros Hin Hat. rewrite osv_packages_lookup.
  destruct (last (filter (same_key (pkg_key pkg)) pkgs)) as [q|] eqn:Hlast.
  - apply last_Some_elem_of, list_elem_of_filter in Hlast as [Hk Hq].
    exists (osv_entry q). split; [done|]. unfold same_key, pkg_key in Hk.
    change ("@" +:+ ?s) with (String "@" s) in Hk.
    destruct (app_sep_inj "@" _ _ _ _ (Hat q Hq) (Hat pkg Hin) Hk) as [Hn Hv].
    simpl. by rewrite Hn, Hv.
  - apply last_None in Hlast.
    assert (Hp : pkg ∈ filter (same_key (pkg_key pkg)) pkgs) by by apply list_elem_of_filter.
    rewrite Hlast in Hp. by apply elem_of_nil in Hp.
Qed.

Lemma osv_entry_of_record_witness :
  let a := {| name := "zlib"; version := "1.3.1"; environment := "default";
              platform := "linux-64"; url := "https://host/linux-64/zlib-1.3.1-0.conda";
              ecosystem := "conda" |} in
  let b := {| name := "zlib"; version := "1.3.1"; environment := "default";
              platform := "osx-arm64"; url := "https://host/osx-arm64/zlib-1.3.1-1.conda";
              ecosystem := "conda" |} in
  ∃ e, Osv.packages (create_osv_lockfile [a; b]).1 !! pkg_key a = Some e ∧
       e.(Osv.name) = "zlib" ∧ e.(Osv.version) = "1.3.1".
Proof.
  intros a b. apply (osv_entry_of_record [a; b] a); [by left|].
  intros q [->|[->|[]%elem_of_nil]%elem_of_cons]%elem_of_cons; done.
Defined.

(** X14.  The two maps of the npm-style manifest agree: the root
    dependencies give, for each name, the version of the entry that
    [dependencies] holds under that name; every entry has the ecosystem
    "conda"; the count returned is at most the number of records. *)
Theorem npm_maps_agree (pkgs : list package) :
  Npm.root_dependencies (create_package_json_style pkgs).1
  = Npm.version <$> Npm.dependencies (create_package_json_style pkgs).1 ∧
  map_Forall (λ _ d, d.(Npm.ecosystem) = "conda")
             (Npm.dependencies (create_package_json_style pkgs).1) ∧
  (create_package_json_style pkgs).2 ≤ length pkgs.
Proof.
  destruct (npm_lookups pkgs) as (H1 & _ & H3). split_and!.
  - apply npm_root_versions.
  - intros n d Hd. rewrite H1 in Hd. destruct (last _); [|done]. by injection Hd as <-.
  - change ((create_package_json_style pkgs).2)
      with (size (Npm.dependencies (create_package_json_style pkgs).1)).
    rewrite <- size_dom, H3. etrans; [apply size_list_to_set_le|].
    rewrite length_fmap. apply length_filter.
Qed.

(** X15.  On a document without any entry tagged 'conda', [main] prints
    that no package was found, exits with status 1 and writes no file. *)
Theorem main_without_conda_entries (data : pixi_lock) :
  walk data = [] →
  written (main (Document data)) = [] ∧
  ending (main (Document data)) = Exits 1 ∧
  last (printed (main (Document data))) = Some NoPackagesFound.
Proof.
  intros Hw. pose proof (main_document data) as H. cbv zeta in H. rewrite Hw in H.
  change (mapM record_result []) with (Ok (@nil package)) in H. cbv beta iota in H.
  rewrite H. cbn [written ending printed].
  split_and!; [done..|]. by rewrite app_comm_cons, last_snoc.
Qed.

Lemma main_without_conda_entries_witness :
  let data :=
    {| environments :=
         Some [("default",
                {| packages := Some [("linux-64",
                     [[("pypi", "https://files.pythonhosted.org/packages/idna-3.10-py3-none-any.whl")]])] |})] |} in
  walk data = [] ∧
  written (main (Document data)) = [] ∧
  ending (main (Document data)) = Exits 1 ∧
  last (printed (main (Document data))) = Some NoPackagesFound.
Proof.
  intros data. split; [done|]. by apply (main_without_conda_entries data).
Defined.


Lemma mapM_record_of (l : list (string * string * string)) (k : list package) :
  mapM record_result l = Ok k → record_of <$> l = k.
Proof.
  revert k; induction l as [|t l IH]; intros k.
  - by intros [= <-].
  - change (mapM record_result (t :: l))
      with (record_result t ≫= λ y, mapM record_result l ≫= λ k', mret (y :: k')).
    destruct t as [[u e] pl].
    assert (Ht : record_result (u, e, pl) = Raise ValueError ∨
                 record_result (u, e, pl) = Ok (record_of (u, e, pl))).
    { unfold record_result, record_of.
      destruct (extract_package_info u) as [[n v]|[]]; cbn; auto. }
    destruct Ht as [-> | ->]; [done|]. cbn [mbind result_bind].
    destruct (mapM record_result l) as [k'|]; [|done].
    intros [= <-]. rewrite fmap_cons. f_equal. by apply IH.
Qed.

Lemma python_count_le_conda_count (pkgs : list package) :
  (create_requirements_txt pkgs).2 ≤ (create_conda_requirements pkgs).2.
Proof.
  change (size (create_requirements_txt pkgs).1 ≤ size (create_conda_requirements pkgs).1).
  apply subseteq_size. rewrite requirements_set, conda_requirements_set. intros l.
  rewrite !elem_of_list_to_set, !list_elem_of_fmap.
  intros (pkg & -> & [_ Hin]%list_elem_of_filter). eauto.
Qed.

Lemma conda_count_le (pkgs : list package) :
  (create_conda_requirements pkgs).2 ≤ length pkgs.
Proof.
  change ((create_conda_requirements pkgs).2) with (size (create_conda_requirements pkgs).1).
  rewrite conda_requirements_set. etrans; [apply size_list_to_set_le|]. by rewrite length_fmap.
Qed.

(** X18.  When [main] returns, the summary it writes last counts one
    package for each tagged triple, at least one; its count of Python
    packages is at most its count of conda packages, itself at most the
    total; and its sample holds the first ten records of the extraction,
    or all of them when there are fewer. *)
Theorem main_summary_counts (data : pixi_lock) :
  ending (main (Document data)) = Returns →
  ∃ s, last (written (main (Document data))) = Some (ConversionSummaryJson s) ∧
       s.(total_packages_found) = length (walk data) ∧
       0 < s.(total_packages_found) ∧
       s.(python_packages) ≤ s.(conda_packages) ∧
       s.(conda_packages) ≤ s.(total_packages_found) ∧
       s.(sample) = take 10 (record_of <$> walk data).
Proof.
  intros Hend. pose proof (main_document data) as H. cbv zeta in H.
  destruct (mapM record_result (walk data)) as [[|p pkgs]|e] eqn:Hm;
    [by rewrite H in Hend| |by rewrite H in Hend].
  destruct H as [_ Hw]. rewrite Hw. eexists. split; [done|].
  cbn [total_packages_found python_packages conda_packages sample].
  pose proof (mapM_record_of _ _ Hm) as Hrec.
  assert (Hlen : length (walk data) = length (p :: pkgs)).
  { by rewrite <- Hrec, length_fmap. }
  split_and!.
  - by rewrite Hlen.
  - simpl. lia.
  - apply (python_count_le_conda_count (p :: pkgs)).
  - apply (conda_count_le (p :: pkgs)).
  - by rewrite Hrec.
Qed.

Lemma main_summary_counts_witness :
  let conda_url := "https://conda.anaconda.org/conda-forge/linux-64/numpy-2.1.3-py312h58c1407_0.conda" in
  let zlib_url := "https://conda.anaconda.org/conda-forge/linux-64/zlib-1.3.1-hb9d3cd8_2.conda" in
  let data :=
    {| environments :=
         Some [("default",
                {| packages := Some [("linux-64", [[("conda", conda_url)];
                                                   [("conda", zlib_url)]])] |})] |} in
  ending (main (Document data)) = Returns ∧
  ∃ s, last (written (main (Document data))) = Some (ConversionSummaryJson s) ∧
       s.(total_packages_found) = length (walk data) ∧
       0 < s.(total_packages_found) ∧
       s.(python_packages) ≤ s.(conda_packages) ∧
       s.(conda_packages) ≤ s.(total_packages_found) ∧
       s.(sample) = take 10 (record_of <$> walk data).
Proof.
  intros conda_url zlib_url data.
  assert (Hend : ending (main (Document data)) = Returns) by (by vm_compute).
  split; [exact Hend|]. exact (main_summary_counts data Hend).
Defined.
